(** * wjh_ipc: Atomic<T>, ProcessId and ProcessIdLock

    A shallow embedding of the inter-process primitives of wjh_ipc
    ([src/wjh/Atomic.hpp], [src/wjh/detail/Atomic.hpp], [ProcessId.hpp/.cpp],
    [ProcessIdLock.hpp/.cpp]) and the properties of its specification.

    Conventions.
    - Machine integers are [Z] with every conversion written out
      ([to_unsigned], [to_signed]); bit operations are [Z.lor], [Z.shiftl],
      [Z.shiftr].
    - A function that can throw or trip an [assert] returns an [outcome].
    - Code that reads or writes an atomic object is written in the monad [M]
      over the state of that object. *)

From Stdlib Require Import ZArith List String Ascii Bool Lia DecimalString.
Import ListNotations.
Local Open Scope Z_scope.

(** ** C++ scaffolding: integer conversions, exceptions, assert *)

Module Cxx.

(** Conversion to an unsigned type of [bits] bits. *)
Definition to_unsigned (bits z : Z) : Z := z mod 2 ^ bits.

(** Conversion to a signed (two's complement) type of [bits] bits. *)
Definition to_signed (bits z : Z) : Z :=
  (z + 2 ^ (bits - 1)) mod 2 ^ bits - 2 ^ (bits - 1).

Definition uint32 : Z -> Z := to_unsigned 32.
Definition uint64 : Z -> Z := to_unsigned 64.
(** [pid_t] is a 32-bit [int]; [time_t] and [suseconds_t] are [long]. *)
Definition pid_t : Z -> Z := to_signed 32.
Definition time_t : Z -> Z := to_signed 64.
Definition suseconds_t : Z -> Z := to_signed 64.

(** The values a [pid_t] variable can hold. *)
Definition is_pid_t (pid : Z) : Prop := - 2 ^ 31 <= pid < 2 ^ 31.

(** [std::runtime_error(what)], and the exceptions of [std::stoull]. *)
Inductive exn : Type :=
| runtime_error (what : string)
| invalid_argument (what : string)
| out_of_range (what : string).

(** How a call ends: it returns, it throws, or an [assert] aborts. *)
Inductive outcome (A : Type) : Type :=
| Ok (a : A)
| Throw (e : exn)
| AssertFail.
Arguments Ok {A} a.
Arguments Throw {A} e.
Arguments AssertFail {A}.

(** [assert(c)] of <cassert>: compiled out when [NDEBUG] is defined. *)
Definition assert (NDEBUG : bool) (c : bool) : outcome unit :=
  if NDEBUG then Ok tt else if c then Ok tt else AssertFail.

(** [operator<<] of an [int] into a stream: signed decimal. *)
Definition show_int (z : Z) : string := NilZero.string_of_int (Z.to_int z).

End Cxx.
Import Cxx.

(** ** detail/Atomic.hpp *)

Module atomic_detail.

(** [using Order = decltype(__ATOMIC_RELAXED)], an [int]. *)
Definition Order : Type := Z.

(** The compiler's memory-model constants. *)
Definition __ATOMIC_RELAXED : Order := 0.
Definition __ATOMIC_CONSUME : Order := 1.
Definition __ATOMIC_ACQUIRE : Order := 2.
Definition __ATOMIC_RELEASE : Order := 3.
Definition __ATOMIC_ACQ_REL : Order := 4.
Definition __ATOMIC_SEQ_CST : Order := 5.

Inductive memory_order : Type :=
| memory_order_relaxed
| memory_order_consume
| memory_order_acquire
| memory_order_release
| memory_order_acq_rel
| memory_order_seq_cst.

(** [static_cast<Order>(order)]; the header's [static_assert]s pin each
    enumerator to the constant of the same name. *)
Definition static_cast_Order (order : memory_order) : Order :=
  match order with
  | memory_order_relaxed => __ATOMIC_RELAXED
  | memory_order_consume => __ATOMIC_CONSUME
  | memory_order_acquire => __ATOMIC_ACQUIRE
  | memory_order_release => __ATOMIC_RELEASE
  | memory_order_acq_rel => __ATOMIC_ACQ_REL
  | memory_order_seq_cst => __ATOMIC_SEQ_CST
  end.

(** [template <Order... Orders> native_order(order)]:
    [assert(((static_cast<Order>(order) == Orders) || ...))], then the
    converted order. *)
Definition native_order (NDEBUG : bool) (Orders : list Order)
    (order : memory_order) : outcome Order :=
  match assert NDEBUG (existsb (Z.eqb (static_cast_Order order)) Orders) with
  | Ok _ => Ok (static_cast_Order order)
  | Throw e => Throw e
  | AssertFail => AssertFail
  end.

End atomic_detail.
Import atomic_detail.

(** ** Atomic.hpp *)

Module Atomic.

(** An [Atomic<T>] placed in shared memory.  [value_] is its only member.
    Other threads and processes act on the same bytes: [foreign] lists, for
    each atomic access this thread is still to make, the value somebody
    else left in the object just before that access ([None]: nobody wrote;
    an empty list: no further interference). *)
Record t (T : Type) : Type := mk { value_ : T; foreign : list (option T) }.
Arguments mk {T} value_ foreign.
Arguments value_ {T} _.
Arguments foreign {T} _.

(** Zero-initialised (or value-initialised) storage, accessed by nobody
    else. *)
Definition quiet {T : Type} (v : T) : t T := mk v [].

(** The object as this thread finds it at its next atomic access. *)
Definition arrive {T : Type} (a : t T) : t T :=
  match foreign a with
  | [] => a
  | None :: rest => mk (value_ a) rest
  | Some v :: rest => mk v rest
  end.

(** Computations on one atomic object. *)
Definition M (T A : Type) : Type := t T -> outcome A * t T.

Definition ret {T A : Type} (x : A) : M T A := fun a => (Ok x, a).

Definition bind {T A B : Type} (c : M T A) (k : A -> M T B) : M T B :=
  fun a =>
    match c a with
    | (Ok x, a') => k x a'
    | (Throw e, a') => (Throw e, a')
    | (AssertFail, a') => (AssertFail, a')
    end.

(** A call that does not touch the object. *)
Definition lift {T A : Type} (o : outcome A) : M T A := fun a => (o, a).

Declare Scope atomic_scope.
Delimit Scope atomic_scope with atomic.
Notation "x <- c ;; k" := (bind c (fun x => k))
  (at level 61, c at next level, right associativity) : atomic_scope.
Notation "' pat <- c ;; k" :=
  (bind c (fun x => match x with pat => k end))
  (at level 61, pat pattern, c at next level, right associativity)
  : atomic_scope.
Local Open Scope atomic_scope.

Section Atomic.

Variable T : Type.
(** Comparison of value representations (bitwise equality). *)
Variable T_eqb : T -> T -> bool.
(** [std::is_fundamental_v<T>]. *)
Variable is_fundamental : bool.
Variable NDEBUG : bool.

(** The compiler builtins, with the memory model of one object in
    sequentially consistent interleaving: the order arguments do not change
    the value read or written.  The [_n] forms take and return values, the
    generic forms go through pointers; they act alike on the object. *)
Definition __atomic_store (desired : T) (_ : Order) : M T unit :=
  fun a => (Ok tt, mk desired (foreign (arrive a))).

Definition __atomic_store_n : T -> Order -> M T unit := __atomic_store.

Definition __atomic_load (_ : Order) : M T T :=
  fun a => (Ok (value_ (arrive a)), arrive a).

Definition __atomic_load_n : Order -> M T T := __atomic_load.

(** Compare-exchange: it writes [desired] when the object holds
    [expected]; else it writes nothing and reports the value found.  This
    is the strong form ([weak = false]); a weak one may in addition fail
    for no reason, which is not modelled. *)
Definition __atomic_compare_exchange (expected desired : T) (weak : bool)
    (_ _ : Order) : M T (bool * T) :=
  fun a =>
    let a' := arrive a in
    if T_eqb (value_ a') expected
    then (Ok (true, expected), mk desired (foreign a'))
    else (Ok (false, value_ a'), a').

Definition __atomic_compare_exchange_n
    : T -> T -> bool -> Order -> Order -> M T (bool * T) :=
  __atomic_compare_exchange.

(** [store(desired, order)]. *)
Definition store (desired : T) (order : memory_order) : M T unit :=
  if is_fundamental then
    o <- lift (native_order NDEBUG
           [__ATOMIC_RELAXED; __ATOMIC_RELEASE; __ATOMIC_SEQ_CST] order) ;;
    __atomic_store_n desired o
  else
    o <- lift (native_order NDEBUG
           [__ATOMIC_RELAXED; __ATOMIC_ACQUIRE; __ATOMIC_CONSUME;
            __ATOMIC_SEQ_CST] order) ;;
    __atomic_store desired o.

(** [load(order)]. *)
Definition load (order : memory_order) : M T T :=
  if is_fundamental then
    o <- lift (native_order NDEBUG
           [__ATOMIC_RELAXED; __ATOMIC_ACQUIRE; __ATOMIC_CONSUME;
            __ATOMIC_SEQ_CST] order) ;;
    __atomic_load_n o
  else
    o <- lift (native_order NDEBUG
           [__ATOMIC_RELAXED; __ATOMIC_ACQUIRE; __ATOMIC_CONSUME;
            __ATOMIC_SEQ_CST] order) ;;
    __atomic_load o.

(** [compare_exchange_impl(expected, desired, weak, success, fail)]; the
    pair returned is the result and the final value of the reference
    argument [expected]. *)
Definition compare_exchange_impl (expected desired : T) (weak : bool)
    (success fail : memory_order) : M T (bool * T) :=
  let sorder := static_cast_Order success in
  forder <- lift (native_order NDEBUG
              [__ATOMIC_RELAXED; __ATOMIC_CONSUME; __ATOMIC_ACQUIRE;
               __ATOMIC_SEQ_CST] fail) ;;
  _ <- lift (assert NDEBUG (sorder >=? forder)) ;;
  if is_fundamental then
    __atomic_compare_exchange_n expected desired weak sorder forder
  else
    __atomic_compare_exchange expected desired weak sorder forder.

(** [compare_exchange_strong(expected, desired, order)]. *)
Definition compare_exchange_strong (expected desired : T)
    (order : memory_order) : M T (bool * T) :=
  compare_exchange_impl expected desired false order order.

(** [compare_exchange_strong(expected, desired, success, fail)]. *)
Definition compare_exchange_strong2 (expected desired : T)
    (success fail : memory_order) : M T (bool * T) :=
  compare_exchange_impl expected desired false success fail.

(** [__atomic_exchange] and [__atomic_exchange_n]: the value found is
    returned and [desired] is written. *)
Definition __atomic_exchange (desired : T) (_ : Order) : M T T :=
  fun a => (Ok (value_ (arrive a)), mk desired (foreign (arrive a))).

Definition __atomic_exchange_n : T -> Order -> M T T := __atomic_exchange.

(** [exchange(desired, order)]. *)
Definition exchange (desired : T) (order : memory_order) : M T T :=
  if is_fundamental then
    o <- lift (native_order NDEBUG
           [__ATOMIC_RELAXED; __ATOMIC_ACQUIRE; __ATOMIC_RELEASE;
            __ATOMIC_ACQ_REL; __ATOMIC_SEQ_CST] order) ;;
    __atomic_exchange_n desired o
  else
    o <- lift (native_order NDEBUG
           [__ATOMIC_RELAXED; __ATOMIC_ACQUIRE; __ATOMIC_RELEASE;
            __ATOMIC_ACQ_REL; __ATOMIC_SEQ_CST] order) ;;
    __atomic_exchange desired o.

End Atomic.

(** *** Arithmetic and bitwise operations, [T] an integer type *)

(** An integer type other than [bool]: its width and whether it is signed. *)
Record integral : Type := { int_bits : Z; int_signed : bool }.

(** Conversion to the type. *)
Definition int_conv (ty : integral) (z : Z) : Z :=
  if int_signed ty then to_signed (int_bits ty) z
  else to_unsigned (int_bits ty) z.

(** The values of the type. *)
Definition int_range (ty : integral) (z : Z) : Prop :=
  if int_signed ty
  then - 2 ^ (int_bits ty - 1) <= z < 2 ^ (int_bits ty - 1)
  else 0 <= z < 2 ^ int_bits ty.

(** [x + y] (or [x - y], given as [x + (- y)]) as the language computes it
    for operands of the type: narrow types are promoted to [int] and the
    result converted back, unsigned types wrap; for [int] and wider signed
    types the result must be representable. *)
Definition sum_defined (ty : integral) (r : Z) : Prop :=
  int_signed ty = false \/ int_bits ty < 32 \/ int_range ty r.

Section Integral.

Variable ty : integral.

(** The read-modify-write builtins on an integer object.  They wrap around
    in the object's type; the order does not change the values. *)
Definition rmw (f : Z -> Z) : M Z Z :=
  fun a =>
    let a' := arrive a in
    (Ok (value_ a'), mk (int_conv ty (f (value_ a'))) (foreign a')).

Definition __atomic_fetch_add (arg : Z) (_ : Order) : M Z Z :=
  rmw (fun v => v + arg).
Definition __atomic_fetch_sub (arg : Z) (_ : Order) : M Z Z :=
  rmw (fun v => v - arg).
Definition __atomic_fetch_and (arg : Z) (_ : Order) : M Z Z :=
  rmw (fun v => Z.land v arg).
Definition __atomic_fetch_or (arg : Z) (_ : Order) : M Z Z :=
  rmw (fun v => Z.lor v arg).
Definition __atomic_fetch_xor (arg : Z) (_ : Order) : M Z Z :=
  rmw (fun v => Z.lxor v arg).

(** [fetch_add(T arg, order)], [fetch_sub(T arg, order)]: the order is
    converted, not checked. *)
Definition fetch_add (arg : Z) (order : memory_order) : M Z Z :=
  __atomic_fetch_add arg (static_cast_Order order).

Definition fetch_sub (arg : Z) (order : memory_order) : M Z Z :=
  __atomic_fetch_sub arg (static_cast_Order order).

(** [operator += (T arg)]: [return fetch_add(arg) + arg;]. *)
Definition add_assign (arg : Z) : M Z Z :=
  old <- fetch_add arg memory_order_seq_cst ;;
  ret (int_conv ty (old + arg)).

(** [operator -= (T arg)]: [return fetch_sub(arg) - arg;]. *)
Definition sub_assign (arg : Z) : M Z Z :=
  old <- fetch_sub arg memory_order_seq_cst ;;
  ret (int_conv ty (old - arg)).

(** [operator ++ ()]: [return fetch_add(D(1)) + D(1);]. *)
Definition pre_increment : M Z Z :=
  old <- fetch_add 1 memory_order_seq_cst ;;
  ret (int_conv ty (old + 1)).

(** [operator ++ (int)]: [return fetch_add(D(1));]. *)
Definition post_increment : M Z Z := fetch_add 1 memory_order_seq_cst.

(** [operator -- ()]: [return fetch_sub(D(1)) - D(1);]. *)
Definition pre_decrement : M Z Z :=
  old <- fetch_sub 1 memory_order_seq_cst ;;
  ret (int_conv ty (old - 1)).

(** [operator -- (int)]: [return fetch_sub(D(1));]. *)
Definition post_decrement : M Z Z := fetch_sub 1 memory_order_seq_cst.

(** [fetch_and], [fetch_or], [fetch_xor]. *)
Definition fetch_and (arg : Z) (order : memory_order) : M Z Z :=
  __atomic_fetch_and arg (static_cast_Order order).

Definition fetch_or (arg : Z) (order : memory_order) : M Z Z :=
  __atomic_fetch_or arg (static_cast_Order order).

Definition fetch_xor (arg : Z) (order : memory_order) : M Z Z :=
  __atomic_fetch_xor arg (static_cast_Order order).

(** [operator &=], [operator |=], [operator ^=]:
    [return fetch_and(arg) & arg;] and the like. *)
Definition and_assign (arg : Z) : M Z Z :=
  old <- fetch_and arg memory_order_seq_cst ;;
  ret (int_conv ty (Z.land old arg)).

Definition or_assign (arg : Z) : M Z Z :=
  old <- fetch_or arg memory_order_seq_cst ;;
  ret (int_conv ty (Z.lor old arg)).

Definition xor_assign (arg : Z) : M Z Z :=
  old <- fetch_xor arg memory_order_seq_cst ;;
  ret (int_conv ty (Z.lxor old arg)).

End Integral.

(** *** Arithmetic, [T] a pointer to objects of [size] bytes *)

Section Pointer.

(** [sizeof] of the type pointed to. *)
Variable size : Z.

(** [__atomic_fetch_add] on a pointer object: the compiler documents that
    operations on pointer arguments are performed as if the operands were
    of type [uintptr_t], that is, not scaled by the size of the type
    pointed to. *)
Definition __atomic_fetch_add_ptr (arg : Z) (_ : Order) : M Z Z :=
  fun a =>
    let a' := arrive a in
    (Ok (value_ a'), mk (uint64 (value_ a' + arg)) (foreign a')).

Definition __atomic_fetch_sub_ptr (arg : Z) (_ : Order) : M Z Z :=
  fun a =>
    let a' := arrive a in
    (Ok (value_ a'), mk (uint64 (value_ a' - arg)) (foreign a')).

(** [fetch_add(std::ptrdiff_t arg, order)] and [fetch_sub]. *)
Definition fetch_add_ptr (arg : Z) (order : memory_order) : M Z Z :=
  __atomic_fetch_add_ptr arg (static_cast_Order order).

Definition fetch_sub_ptr (arg : Z) (order : memory_order) : M Z Z :=
  __atomic_fetch_sub_ptr arg (static_cast_Order order).

(** [operator += (std::ptrdiff_t arg)]: [return fetch_add(arg) + arg;],
    where [+] is pointer arithmetic, in units of [size] bytes; the result
    is a pointer, an address of 64 bits. *)
Definition add_assign_ptr (arg : Z) : M Z Z :=
  old <- fetch_add_ptr arg memory_order_seq_cst ;;
  ret (uint64 (old + size * arg)).

(** [operator -= (std::ptrdiff_t arg)]: [return fetch_sub(arg) - arg;]. *)
Definition sub_assign_ptr (arg : Z) : M Z Z :=
  old <- fetch_sub_ptr arg memory_order_seq_cst ;;
  ret (uint64 (old - size * arg)).

(** [operator ++ ()] on a pointer: [return fetch_add(D(1)) + D(1);] with
    [D = std::ptrdiff_t]. *)
Definition pre_increment_ptr : M Z Z :=
  old <- fetch_add_ptr 1 memory_order_seq_cst ;;
  ret (uint64 (old + size * 1)).

End Pointer.

(** The precondition documented for [store]: [order] is one of
    [memory_order_relaxed], [memory_order_release], [memory_order_seq_cst]. *)
Definition store_order (order : memory_order) : bool :=
  match order with
  | memory_order_relaxed | memory_order_release | memory_order_seq_cst => true
  | _ => false
  end.

End Atomic.


(** ** ProcessId.hpp, ProcessId.cpp *)

Module ProcessId.

(** [Value]: [__uint128_t] where 128-bit atomics are always lock-free,
    [std::uint64_t] elsewhere. *)
Inductive ValueT : Type := uint64_t | uint128_t.

(** [std::numeric_limits<T>::digits]. *)
Definition digits (T : ValueT) : Z :=
  match T with uint64_t => 64 | uint128_t => 128 end.

(** Conversion to [T]. *)
Definition to_ValueT (T : ValueT) : Z -> Z := to_unsigned (digits T).

(** [::timeval]. *)
Record timeval : Type := { tv_sec : Z; tv_usec : Z }.

(** [struct ProcessId { Value value_; }]. *)
Record t : Type := mk { value_ : Z }.

(** What a call of [start_time_of(pid)] leaves behind: its result and the
    value of [errno] (which it clears on entry). *)
Record probe : Type := { probe_time : option timeval; probe_errno : Z }.

(** [inline constexpr std::uint32_t epoch], 2024-01-01 00:00:00 UTC. *)
Definition epoch : Z := 1704067200.

(** [template <typename T> shift = std::numeric_limits<T>::digits / 2]. *)
Definition shift (T : ValueT) : Z := digits T / 2.

(** The two [if constexpr] branches of [value_from], for an engaged [tv].
    The subtraction [tv->tv_sec - epoch] is done in [time_t] and converted
    to [std::uint32_t]; the 128-bit branch computes in [std::uint64_t]. *)
Definition packed (T : ValueT) (pid : Z) (tv : timeval) : Z :=
  match T with
  | uint64_t =>
      Z.lor (to_ValueT T (Z.shiftl (to_ValueT T pid) (shift T)))
            (uint32 (tv_sec tv - epoch))
  | uint128_t =>
      Z.lor (to_ValueT T (Z.shiftl (to_ValueT T pid) (shift T)))
            (uint64 (1000000 * uint64 (tv_sec tv) + uint64 (tv_usec tv)))
  end.

Section ProcessId.

Variable Value : ValueT.
(** [strerror] of <cstring>. *)
Variable strerror : Z -> string.
(** The per-OS probe of the anonymous namespace. *)
Variable start_time_of : Z -> probe.

(** [value_from<ValueT>(pid, tv)], reading [errno] in the failure branch. *)
Definition value_from (T : ValueT) (pid : Z) (tv : option timeval)
    (errno : Z) : outcome Z :=
  match tv with
  | None =>
      let err := errno in
      let strm :=
        ("can't get process start time: pid=" ++ show_int pid)%string in
      let strm :=
        if negb (err =? 0) then (strm ++ ": " ++ strerror errno)%string
        else strm in
      Throw (runtime_error strm)
  | Some tv => Ok (packed T pid tv)
  end.

(** [ProcessId::maybe(pid)]. *)
Definition maybe (pid : Z) : outcome (option t) :=
  let r := start_time_of pid in
  match probe_time r with
  | Some start_time =>
      match value_from Value pid (Some start_time) (probe_errno r) with
      | Ok v => Ok (Some (mk v))
      | Throw e => Throw e
      | AssertFail => AssertFail
      end
  | None => Ok None
  end.

(** [ProcessId::ProcessId(pid_t pid)]. *)
Definition of_pid (pid : Z) : outcome t :=
  let r := start_time_of pid in
  match value_from Value pid (probe_time r) (probe_errno r) with
  | Ok v => Ok (mk v)
  | Throw e => Throw e
  | AssertFail => AssertFail
  end.

(** [ProcessId::ProcessId(pid_t pid, ::timeval const & start_time) noexcept]:
    [value_from] on an engaged optional. *)
Definition of_pid_start_time (pid : Z) (start_time : timeval) : t :=
  mk (packed Value pid start_time).

(** [ProcessId::pid()]. *)
Definition pid (id : t) : Z :=
  pid_t (Z.shiftr (value_ id) (shift Value)).

(** [ProcessId::start_time()]. *)
Definition start_time (id : t) : timeval :=
  match Value with
  | uint64_t =>
      let ticks := uint32 (value_ id) in
      {| tv_sec := time_t (uint32 (epoch + ticks));
         tv_usec := suseconds_t 0 |}
  | uint128_t =>
      let ticks := uint64 (value_ id) in
      {| tv_sec := time_t (ticks / 1000000);
         tv_usec := suseconds_t (ticks mod 1000000) |}
  end.

(** [ProcessId::current()]: the identifier of the calling process, computed
    from [::getpid()] at first use and cached. *)
Definition current (getpid : Z) : outcome t := of_pid getpid.

End ProcessId.

(** [ProcessId::null()]: [ProcessId{}], all bytes zero. *)
Definition null : t := mk 0.

(** The defaulted comparison: equality of [value_]. *)
Definition eqb (a b : t) : bool := value_ a =? value_ b.

(** The two halves of a packed value, each [shift T] bits wide. *)
Definition high_half (T : ValueT) (v : Z) : Z := Z.shiftr v (shift T).
Definition low_half (T : ValueT) (v : Z) : Z := v mod 2 ^ shift T.

(** The right operand of the [|] in [value_from]. *)
Definition low_of (T : ValueT) (tv : timeval) : Z :=
  match T with
  | uint64_t => uint32 (tv_sec tv - epoch)
  | uint128_t => uint64 (1000000 * uint64 (tv_sec tv) + uint64 (tv_usec tv))
  end.

(** [operator <=>], defaulted: the comparison of [value_], an unsigned
    integer. *)
Definition compare (a b : t) : comparison := value_ a ?= value_ b.

(** A [timeval] as the system gives it: seconds since 1970, not negative,
    and microseconds below one million. *)
Definition normalized (tv : timeval) : Prop :=
  0 <= tv_sec tv /\ 0 <= tv_usec tv < 1000000.

(** The microseconds since 1970 a [timeval] stands for. *)
Definition micros (tv : timeval) : Z := tv_sec tv * 1000000 + tv_usec tv.

End ProcessId.


(** ** ProcessId::current() and fork *)

Module Current.

Import ProcessId.

(** What [current()] keeps in a process: [getpid] is what [::getpid()]
    returns; [id] is the storage of the function's static variable, zero
    before its initialisation; [initialised] tells whether that
    initialisation has completed; [handlers] counts the registrations of
    the child handler [id = ProcessId{::getpid()}] with [pthread_atfork]. *)
Record process : Type := {
  getpid : Z;
  id : ProcessId.t;
  initialised : bool;
  handlers : nat
}.

(** A process in which [current()] was never called. *)
Definition fresh (pid : Z) : process :=
  {| getpid := pid; id := null; initialised := false; handlers := 0 |}.

Section Current.

Variable Value : ValueT.
Variable strerror : Z -> string.
Variable start_time_of : Z -> probe.

(** [ProcessId::current()]: the first call registers the handler and
    initialises [id] from [ProcessId{::getpid()}]; an initialisation that
    throws is not completed and is tried again by the next call. *)
Definition current (p : process) : outcome ProcessId.t * process :=
  if initialised p then (Ok (id p), p)
  else
    let registered := S (handlers p) in
    match of_pid Value strerror start_time_of (getpid p) with
    | Ok v =>
        (Ok v, {| getpid := getpid p; id := v; initialised := true;
                  handlers := registered |})
    | Throw e =>
        (Throw e, {| getpid := getpid p; id := id p; initialised := false;
                     handlers := registered |})
    | AssertFail =>
        (AssertFail, {| getpid := getpid p; id := id p;
                        initialised := false; handlers := registered |})
    end.

(** The child handlers run after a fork, one per registration. *)
Fixpoint run_handlers (n : nat) (p : process) : outcome process :=
  match n with
  | O => Ok p
  | S n' =>
      match of_pid Value strerror start_time_of (getpid p) with
      | Ok v =>
          run_handlers n' {| getpid := getpid p; id := v;
                             initialised := initialised p;
                             handlers := handlers p |}
      | Throw e => Throw e
      | AssertFail => AssertFail
      end
  end.

(** [fork()], seen from the child: a copy of the parent under the pid
    [child], then the child handlers. *)
Definition fork (child : Z) (parent : process) : outcome process :=
  run_handlers (handlers parent)
    {| getpid := child; id := id parent;
       initialised := initialised parent; handlers := handlers parent |}.

End Current.

(** The states a process can be in: an initialised [id] has its handler
    registered. *)
Definition reachable (p : process) : Prop :=
  initialised p = true -> (0 < handlers p)%nat.

End Current.


(** ** ProcessIdLock.hpp, ProcessIdLock.cpp *)

(** Modelled from the spec: ProcessIdLock.cpp writes [PID::current()] and
    [PID::null()], and no file at hand declares [PID].  The lock of the
    specification keeps a single [Atomic<ProcessId>] and takes the caller's
    [current()] identifier, so [PID] names [ProcessId]. *)
Module PID := ProcessId.

Module ProcessIdLock.

Import Atomic.
Local Open Scope atomic_scope.

(** [struct ProcessIdLock { Atomic<ProcessId> pid_; }]: the state of the
    lock is the state of its only member. *)
Definition t : Type := Atomic.t ProcessId.t.

Section ProcessIdLock.

Variable Value : ProcessId.ValueT.
Variable strerror : Z -> string.
Variable start_time_of : Z -> ProcessId.probe.
(** [::getpid()] of the calling process. *)
Variable getpid : Z.
Variable NDEBUG : bool.

(** [ProcessIdLock::exchange(expected, desired)]:
    [pid_.compare_exchange_strong(expected, desired)] with the default
    order.  [ProcessId] is a class type, not a fundamental one. *)
Definition exchange (expected desired : ProcessId.t)
    : M ProcessId.t (bool * ProcessId.t) :=
  compare_exchange_strong ProcessId.t ProcessId.eqb false NDEBUG
    expected desired memory_order_seq_cst.

(** [ProcessIdLock::try_lock_impl(me)]. *)
Definition try_lock_impl (me : ProcessId.t) : M ProcessId.t bool :=
  let expected := PID.null in
  '(got, expected) <- exchange expected me ;;
  if got then
    ret true
  else if negb (ProcessId.eqb expected me) then
    p <- lift (ProcessId.maybe Value strerror start_time_of
                 (ProcessId.pid Value expected)) ;;
    if match p with
       | None => true
       | Some p => negb (ProcessId.eqb expected p)
       end
    then
      '(_, expected) <- exchange expected PID.null ;;
      let expected := PID.null in
      '(got, expected) <- exchange expected me ;;
      if got then ret true else ret false
    else ret false
  else ret false.

(** [ProcessIdLock::try_lock()]. *)
Definition try_lock : M ProcessId.t bool :=
  me <- lift (PID.current Value strerror start_time_of getpid) ;;
  try_lock_impl me.

(** [ProcessIdLock::unlock()]. *)
Definition unlock : M ProcessId.t unit :=
  me <- lift (PID.current Value strerror start_time_of getpid) ;;
  '(released, me) <- exchange me PID.null ;;
  lift (assert NDEBUG released).

(** The loop of [ProcessIdLock::lock()]:
    [while (not try_lock_impl(me)) std::this_thread::yield();].  [fuel]
    bounds the attempts looked at; [None] is a caller still in the loop
    after that many. *)
Fixpoint lock_attempts (fuel : nat) (me : ProcessId.t)
    : M ProcessId.t (option unit) :=
  match fuel with
  | O => ret None
  | S fuel' =>
      got <- try_lock_impl me ;;
      if got then ret (Some tt) else lock_attempts fuel' me
  end.

(** [ProcessIdLock::lock()]. *)
Definition lock (fuel : nat) : M ProcessId.t (option unit) :=
  me <- lift (PID.current Value strerror start_time_of getpid) ;;
  lock_attempts fuel me.

End ProcessIdLock.

End ProcessIdLock.


(** ** The Linux probe of ProcessId.cpp *)

Module Linux.

Import ProcessId.
Local Open Scope string_scope.

(** *** [sscanf], as far as the probe's format uses it *)

(** [isspace] and [isdigit] in the C locale. *)
Definition isspace (c : ascii) : bool :=
  let n := N_of_ascii c in
  ((n =? 32) || ((9 <=? n) && (n <=? 13)))%N.

Definition isdigit (c : ascii) : bool :=
  let n := N_of_ascii c in
  ((48 <=? n) && (n <=? 57))%N.

(** The conversions [%d], [%u], [%llu], [%c] and [%[^x]]. *)
Inductive conv : Type :=
| conv_d
| conv_u
| conv_llu
| conv_c
| conv_not (stop : ascii).

(** A directive of a format: white space, an ordinary character, or a
    conversion, with its assignment-suppression flag [*]. *)
Inductive directive : Type :=
| d_space
| d_char (c : ascii)
| d_conv (suppress : bool) (cv : conv).

(** The value a conversion stores through its pointer argument. *)
Inductive arg : Type :=
| arg_int (n : Z)
| arg_char (c : ascii)
| arg_str (s : string).

Fixpoint parse_format (fmt : string) : option (list directive) :=
  match fmt with
  | EmptyString => Some []
  | String "%" (String "*" (String "d" rest)) =>
      option_map (cons (d_conv true conv_d)) (parse_format rest)
  | String "%" (String "*" (String "u" rest)) =>
      option_map (cons (d_conv true conv_u)) (parse_format rest)
  | String "%" (String "*" (String "[" (String "^" (String x
      (String "]" rest))))) =>
      option_map (cons (d_conv true (conv_not x))) (parse_format rest)
  | String "%" (String "c" rest) =>
      option_map (cons (d_conv false conv_c)) (parse_format rest)
  | String "%" (String "l" (String "l" (String "u" rest))) =>
      option_map (cons (d_conv false conv_llu)) (parse_format rest)
  | String "%" _ => None
  | String c rest =>
      option_map (cons (if isspace c then d_space else d_char c))
                 (parse_format rest)
  end.

(** The conversions of a format, in order: each consumes one field. *)
Fixpoint conversions (ds : list directive) : list (bool * conv) :=
  match ds with
  | [] => []
  | d_conv suppress cv :: ds' => (suppress, cv) :: conversions ds'
  | _ :: ds' => conversions ds'
  end.

(** The longest prefix of [s] whose characters satisfy [p], and the rest. *)
Fixpoint span (p : ascii -> bool) (s : string) : string * string :=
  match s with
  | EmptyString => (EmptyString, EmptyString)
  | String c s' =>
      if p c then let (a, b) := span p s' in (String c a, b)
      else (EmptyString, s)
  end.

Definition skip_space (s : string) : string := snd (span isspace s).

(** The number a string of decimal digits denotes. *)
Fixpoint decimal (acc : Z) (ds : string) : Z :=
  match ds with
  | EmptyString => acc
  | String c ds' => decimal (10 * acc + Z.of_N (N_of_ascii c - 48)) ds'
  end.

(** The subject sequence of [strtol] and [strtoull] in base 10: white
    space, an optional sign, one digit or more. *)
Definition scan_number (s : string) : option (bool * string * string) :=
  let s1 := skip_space s in
  let '(neg, s2) :=
    match s1 with
    | String "-" r => (true, r)
    | String "+" r => (false, r)
    | _ => (false, s1)
    end in
  let (ds, rest) := span isdigit s2 in
  match ds with
  | EmptyString => None
  | _ => Some (neg, ds, rest)
  end.

(** [strtoull]: [ULLONG_MAX] on overflow, negation in the unsigned type. *)
Definition strtoull (neg : bool) (ds : string) : Z :=
  let v := decimal 0 ds in
  if v >? 2 ^ 64 - 1 then 2 ^ 64 - 1
  else if neg then uint64 (- v) else v.

(** [strtol] into an [int] or [unsigned] argument (never assigned by the
    probe, whose [%d] and [%u] are all suppressed). *)
Definition strtol (neg : bool) (ds : string) : Z :=
  let v := decimal 0 ds in if neg then - v else v.

(** One conversion: the value converted and the input left, or a matching
    or input failure. *)
Definition convert (cv : conv) (s : string) : option (arg * string) :=
  match cv with
  | conv_d | conv_u =>
      match scan_number s with
      | Some (neg, ds, rest) => Some (arg_int (strtol neg ds), rest)
      | None => None
      end
  | conv_llu =>
      match scan_number s with
      | Some (neg, ds, rest) => Some (arg_int (strtoull neg ds), rest)
      | None => None
      end
  | conv_c =>
      match s with
      | String c rest => Some (arg_char c, rest)
      | EmptyString => None
      end
  | conv_not stop =>
      let (m, rest) := span (fun c => negb (Ascii.eqb c stop)) s in
      match m with
      | EmptyString => None
      | _ => Some (arg_str m, rest)
      end
  end.

(** The values assigned, in order, until the input stops matching. *)
Fixpoint scan (ds : list directive) (s : string) : list arg :=
  match ds with
  | [] => []
  | d_space :: ds' => scan ds' (skip_space s)
  | d_char c :: ds' =>
      match s with
      | String c' s' => if Ascii.eqb c c' then scan ds' s' else []
      | EmptyString => []
      end
  | d_conv suppress cv :: ds' =>
      match convert cv s with
      | Some (a, s') => if suppress then scan ds' s' else a :: scan ds' s'
      | None => []
      end
  end.

(** [sscanf(buffer, format, ...)]: the values assigned.  The C function
    returns how many there are, or [EOF] when the input ends before the
    first conversion; the list is then empty. *)
Definition sscanf (buffer format : string) : list arg :=
  match parse_format format with
  | Some ds => scan ds buffer
  | None => []
  end.

(** [errno] and the conversions.  The C library converts a numeric field
    with [strtol] ([%d]), [strtoul] ([%u]) or [strtoull] ([%llu]), also
    when the assignment is suppressed, and these set [errno] to [ERANGE]
    when the number does not fit a [long], or an [unsigned long] taken with
    either sign. *)
Definition ERANGE : Z := 34.

Definition range_error (cv : conv) (neg : bool) (ds : string) : bool :=
  let v := decimal 0 ds in
  match cv with
  | conv_d => if neg then (v >? 2 ^ 63)%Z else (v >? 2 ^ 63 - 1)%Z
  | conv_u | conv_llu => (v >? 2 ^ 64 - 1)%Z
  | conv_c | conv_not _ => false
  end.

(** Whether the conversion [cv] of the start of [s] is out of range. *)
Definition conv_range_error (cv : conv) (s : string) : bool :=
  match cv with
  | conv_d | conv_u | conv_llu =>
      match scan_number s with
      | Some (neg, ds, _) => range_error cv neg ds
      | None => false
      end
  | conv_c | conv_not _ => false
  end.

(** [errno] after the scan, [errno] being its value before. *)
Fixpoint scan_errno (ds : list directive) (s : string) (errno : Z) : Z :=
  match ds with
  | [] => errno
  | d_space :: ds' => scan_errno ds' (skip_space s) errno
  | d_char c :: ds' =>
      match s with
      | String c' s' => if Ascii.eqb c c' then scan_errno ds' s' errno
                        else errno
      | EmptyString => errno
      end
  | d_conv _ cv :: ds' =>
      match convert cv s with
      | Some (_, s') =>
          scan_errno ds' s' (if conv_range_error cv s then ERANGE else errno)
      | None => errno
      end
  end.

(** [errno] after [sscanf(buffer, format, ...)]. *)
Definition sscanf_errno (buffer format : string) (errno : Z) : Z :=
  match parse_format format with
  | Some ds => scan_errno ds buffer errno
  | None => errno
  end.

(** *** The files and constants the probe reads *)

(** The system as the probe sees it: [file path] is [inl errno] when
    [::open(path, O_RDONLY)], or a [::read] from the file, fails with that
    [errno], and [inr bytes] when the reads deliver [bytes]; [SC_CLK_TCK] is
    the result of [::sysconf(_SC_CLK_TCK)]; [boot_time] is the static
    constant initialised from the [btime] line of /proc/stat. *)
Record system : Type := {
  file : string -> Z + string;
  SC_CLK_TCK : Z;
  boot_time : Z
}.

(** A buffer read as a C string: the characters before the first NUL. *)
Definition c_str (bytes : string) : string :=
  fst (span (fun c => negb (Ascii.eqb c zero)) bytes).

(** The read loop of [with_file_contents]: each round takes a buffer of
    [size] bytes from the stack with [alloca], which gives nothing back
    before the function returns, and reads [size - 1] bytes at most;
    nothing read is an error; a full buffer means a retry with 1k more;
    otherwise the buffer is terminated and handed over.  [stack] counts the
    bytes taken by [alloca] so far and is returned with the result.  The
    outer [None] is fuel running out. *)
Fixpoint read_loop (fuel : nat) (size stack : Z) (bytes : string)
    : option (option string * Z) :=
  let stack := stack + size in
  let nread := Z.min (Z.of_nat (String.length bytes)) (size - 1) in
  if (nread <=? 0)%Z then Some (None, stack)
  else if (nread =? size - 1)%Z then
    match fuel with
    | O => None
    | S fuel' => read_loop fuel' (size + 1024) stack bytes
    end
  else Some (Some (c_str bytes), stack).

(** The retries of the read loop for a file of [bytes]: none below 8191
    bytes, then one more for every 1024 bytes. *)
Definition retries (bytes : string) : Z :=
  let n := Z.of_nat (String.length bytes) in
  if (n <? 8191)%Z then 0%Z else ((n - 8191) / 1024 + 1)%Z.

(** The stack that [with_file_contents] takes for its buffers when the
    reads deliver [bytes]. *)
Definition alloca_total (bytes : string) : Z :=
  match read_loop (String.length bytes) (8 * 1024) 0 bytes with
  | Some (_, stack) => stack
  | None => 0
  end.

(** [with_file_contents(fname, fn, err)], called when [errno] has the
    value [errno].  [err] takes no argument in the source and finds
    [errno] as the call that failed left it: here it receives that value,
    which after a read of no bytes is the one [errno] had on entry.  The
    stack is taken to hold the buffers, [alloca_total] bytes of it. *)
Definition with_file_contents {A : Type} (sys : system) (errno : Z)
    (fname : string) (fn : string -> A) (err : Z -> A) : A :=
  match file sys fname with
  | inl failed => err failed
  | inr bytes =>
      match read_loop (String.length bytes) (8 * 1024) 0 bytes with
      | Some (Some buffer, _) => fn buffer
      | Some (None, _) => err errno
      | None => err errno
      end
  end.

(** [snprintf(fname, sizeof(fname), "/proc/%u/stat", unsigned(pid))]. *)
Definition stat_path (pid : Z) : string :=
  "/proc/" ++ NilZero.string_of_uint (N.to_uint (Z.to_N (uint32 pid)))
    ++ "/stat".

(** The format of the probe's [sscanf]. *)
Definition stat_format : string :=
  "%*d (%*[^)]) %c %*d %*d %*d %*d %*d %*u %*u %*u "
  ++ "%*u %*u %*u %*u %*d %*d %*d %*d %*d %*d %llu".

(** The [switch (state)] of the probe: Zombie, Dead, Dead. *)
Definition zombie_or_dead (state : ascii) : bool :=
  match state with
  | "Z"%char | "X"%char | "x"%char => true
  | _ => false
  end.

Definition nullopt (errno : Z) : probe :=
  {| probe_time := None; probe_errno := errno |}.

(** [start_time_of(pid)], the async-signal-safe Linux implementation.
    [errno] is cleared on entry, and set by a failed [::open] or [::read]
    and by [sscanf] when a number is out of range.  The divisions by [hz]
    are those of the source; [sysconf] does not give a tick rate of
    zero. *)
Definition start_time_of (sys : system) (pid : Z) : probe :=
  let errno := 0%Z in
  with_file_contents sys errno (stat_path pid)
    (fun buffer =>
       let errno := sscanf_errno buffer stat_format errno in
       match sscanf buffer stat_format with
       | [arg_char state; arg_int start_time] =>
           if zombie_or_dead state then nullopt errno
           else
             let r := SC_CLK_TCK sys in
             if (r =? -1)%Z then nullopt errno
             else
               let hz := uint64 r in
               let sec := time_t (start_time / hz) in
               let usec :=
                 suseconds_t (uint64 ((start_time mod hz)
                                      * (uint64 1000000 / hz))) in
               {| probe_time :=
                    Some {| tv_sec := time_t (sec + boot_time sys);
                            tv_usec := usec |};
                  probe_errno := errno |}
       | _ => nullopt errno
       end)
    (fun errno => nullopt errno).

(** *** The boot time *)

(** [strstr(haystack, needle)]: [haystack] from the first occurrence of
    [needle] on, or nothing. *)
Fixpoint strstr (haystack needle : string) : option string :=
  match haystack with
  | EmptyString => if prefix needle haystack then Some haystack else None
  | String _ rest =>
      if prefix needle haystack then Some haystack else strstr rest needle
  end.

(** [q += n] on a pointer into a string. *)
Fixpoint advance (n : nat) (q : string) : string :=
  match n, q with
  | O, _ => q
  | S n', String _ q' => advance n' q'
  | S _, EmptyString => EmptyString
  end.

(** [atoi(s)]: the [int] that [strtol(s, nullptr, 10)] converts to; 0 when
    [s] does not start with a number.  C leaves the result undefined when
    the number does not fit an [int]; here it is truncated. *)
Definition atoi (s : string) : Z :=
  match scan_number s with
  | Some (neg, ds, _) => to_signed 32 (strtol neg ds)
  | None => 0
  end.

Definition ENOENT : Z := 2.

(** The string the probe looks for, a line feed and then [btime ]. *)
Definition line_btime : string := String "010" "btime ".

(** [get_boot_time()]: the number after [btime ] in /proc/stat, read with
    [atoi] (an [int], converted to [time_t]); its [error] throws
    [runtime_error("/proc/stat: " + strerror(errno))], the message being
    cut at 255 characters by [snprintf], which no [strerror] text
    reaches.  [errno] is not cleared here: the function runs with the
    value [errno] that earlier calls left, which [error] finds again after
    a read of no bytes. *)
Definition get_boot_time (strerror : Z -> string) (errno : Z)
    (sys : system) : outcome Z :=
  let error (errno : Z) : outcome Z :=
    Throw (runtime_error ("/proc/stat: " ++ strerror errno)) in
  with_file_contents sys errno "/proc/stat"
    (fun buffer =>
       match strstr buffer line_btime with
       | Some q => Ok (time_t (atoi (advance 7 q)))
       | None =>
           if prefix "btime " buffer then Ok (time_t (atoi buffer))
           else error ENOENT
       end)
    (fun errno => error errno).

(** *** The probe of the earlier ProcessId.cpp, reading with [std::ifstream] *)






(** *** The layout of /proc/<pid>/stat, proc(5) *)

(** Every character of [s] satisfies [p]. *)
Fixpoint all (p : ascii -> bool) (s : string) : bool :=
  match s with
  | EmptyString => true
  | String c s' => p c && all p s'
  end.

(** The first character of [s] satisfies [p]. *)
Definition head_is (p : ascii -> bool) (s : string) : bool :=
  match s with
  | EmptyString => false
  | String c _ => p c
  end.

(** One decimal digit or more. *)
Definition is_digits (f : string) : bool :=
  match f with
  | EmptyString => false
  | String d ds => isdigit d && all isdigit ds
  end.

(** A field printed with [%d], [%u], [%ld], [%lu] or [%llu]: an optional
    minus sign, then one decimal digit or more. *)
Definition is_number (f : string) : bool :=
  match f with
  | String "-" ds => is_digits ds
  | _ => is_digits f
  end.

(** The line of /proc/<pid>/stat: field 1 [pid], field 2 [(comm)], field 3
    [state], then fields 4 to 21 ([mid]), field 22 [starttime] and whatever
    follows it, fields separated by one space. *)
Definition stat_line (pid comm : string) (state : ascii) (mid : list string)
    (starttime rest : string) : string :=
  pid ++ " (" ++ comm ++ ") "
      ++ String state
           (fold_right (fun f s => " " ++ f ++ s)
                       (" " ++ starttime ++ rest) mid).

(** The sign and the digits of a numeric field. *)
Definition sign_digits (f : string) : bool * string :=
  match f with
  | String "-" ds => (true, ds)
  | _ => (false, f)
  end.

(** Whether a numeric field is out of the range of its conversion. *)
Definition field_range_error (cv : conv) (f : string) : bool :=
  let (neg, ds) := sign_digits f in range_error cv neg ds.



End Linux.

(** ** Sample systems, for the instances at the end *)

Module Sample.

Import ProcessId.
Local Open Scope string_scope.

Definition tv : timeval := {| tv_sec := 1762000000; tv_usec := 123456 |}.

(** Process 5 runs; nothing can be learnt about any other pid ([ESRCH]). *)
Definition start_time_of (pid : Z) : probe :=
  if (pid =? 5)%Z
  then {| probe_time := Some tv; probe_errno := 0 |}
  else {| probe_time := None; probe_errno := 3 |}.

Definition strerror (errno : Z) : string :=
  if (errno =? 3)%Z then "No such process" else "Unknown error".

(** The caller, and the identifier a process 7 left in a lock. *)
Definition me : ProcessId.t := of_pid_start_time uint64_t 5 tv.
Definition holder : ProcessId.t := of_pid_start_time uint64_t 7 tv.

(** The identifier of a third process, 9. *)
Definition other : ProcessId.t := of_pid_start_time uint64_t 9 tv.

(** Processes 5 and 7 both run. *)
Definition both_run (pid : Z) : probe :=
  if ((pid =? 5) || (pid =? 7))%Z
  then {| probe_time := Some tv; probe_errno := 0 |}
  else {| probe_time := None; probe_errno := 3 |}.

(** /proc/4243/stat of a zombie whose name has a space in it. *)
Definition zombie_stat : string :=
  "4243 (my prog) Z 4000 4242 4242 34816 -1 4194304 1000 2000 0 0 10 5 3 2"
  ++ " 20 0 1 0 123999 0 0 18446744073709551615 0 0".

(** /proc/4242/stat of a running shell, started 123456 ticks after boot. *)
Definition shell_stat : string :=
  "4242 (bash) S 4000 4242 4242 34816 4300 4194304 1000 2000 0 0 10 5 3 2"
  ++ " 20 0 1 0 123456 12000000 500 18446744073709551615 0 0".

(** /proc/4244/stat of a running process named [job(1)]. *)
Definition paren_stat : string :=
  "4244 (job(1)) R 4000 4244 4242 34816 4300 4194304 1000 2000 0 0 10 5 3 2"
  ++ " 20 0 1 0 123460 12000000 500 18446744073709551615 0 0".

(** /proc/4245/stat of an editor started four ticks after the shell. *)
Definition editor_stat : string :=
  "4245 (vim) S 4242 4245 4242 34816 4300 4194304 1000 2000 0 0 10 5 3 2"
  ++ " 20 0 1 0 123460 12000000 500 18446744073709551615 0 0".

(** /proc/4246/stat of a zombie. *)
Definition defunct_stat : string :=
  "4246 (sh) Z 4242 4246 4242 34816 -1 4227084 1000 2000 0 0 10 5 3 2"
  ++ " 20 0 1 0 123999 0 0 18446744073709551615 0 0".


(** /proc/stat, cut short. *)
Definition proc_stat : string :=
  "cpu  4705 150 1120 1644062 7 0 23 0 0 0" ++ String "010"
  ("ctxt 1990473" ++ String "010"
  ("btime 1762000000" ++ String "010"
  ("processes 2915" ++ String "010" ""))).

(** A system with these files. *)
Definition linux2 : Linux.system :=
  {| Linux.file := fun path =>
       if path =? "/proc/4242/stat" then inr shell_stat
       else if path =? "/proc/4243/stat" then inr zombie_stat
       else if path =? "/proc/4244/stat" then inr paren_stat
       else if path =? "/proc/4245/stat" then inr editor_stat
       else if path =? "/proc/4246/stat" then inr defunct_stat
       else if path =? "/proc/stat" then inr proc_stat
       else inl 2%Z;
     Linux.SC_CLK_TCK := 100;
     Linux.boot_time := 1762000000 |}.

(** The same system with another /proc/stat. *)
Definition with_proc_stat (contents : string) : Linux.system :=
  {| Linux.file := fun path =>
       if path =? "/proc/stat" then inr contents
       else Linux.file linux2 path;
     Linux.SC_CLK_TCK := 100;
     Linux.boot_time := 1762000000 |}.

(** A /proc/stat whose first line is the [btime] line, and one without. *)
Definition btime_first : string :=
  "btime 1762000000" ++ String "010" ("processes 2915" ++ String "010" "").

Definition btime_missing : string :=
  "cpu  4705 150 1120 1644062 7 0 23 0 0 0" ++ String "010"
  ("processes 2915" ++ String "010" "").

(** The shell of [shell_stat], and an earlier process of the same pid. *)
Definition shell_tv : timeval :=
  {| tv_sec := 1762001234; tv_usec := 560000 |}.
Definition shell : ProcessId.t := of_pid_start_time uint128_t 4242 shell_tv.
Definition zombie : ProcessId.t := of_pid_start_time uint128_t 4243 tv.

(** A process 5 in which [current()] was called once. *)
Definition called : Current.process :=
  {| Current.getpid := 5; Current.id := me; Current.initialised := true;
     Current.handlers := 1 |}.

(** Integer types of the tests: [int] and [unsigned char]. *)
Definition int : Atomic.integral :=
  {| Atomic.int_bits := 32; Atomic.int_signed := true |}.
Definition unsigned_char : Atomic.integral :=
  {| Atomic.int_bits := 8; Atomic.int_signed := false |}.


End Sample.


(** * Properties *)

(** ** Integer conversions and packing *)

Section Packing.

Import ProcessId.

Lemma to_unsigned_range (bits z : Z) :
  0 <= bits -> 0 <= to_unsigned bits z < 2 ^ bits.
Proof.
  intros Hb. unfold to_unsigned. apply Z.mod_pos_bound.
  apply Z.pow_pos_nonneg; lia.
Qed.

Lemma to_unsigned_small (bits z : Z) :
  0 <= z < 2 ^ bits -> to_unsigned bits z = z.
Proof. intros H. unfold to_unsigned. now apply Z.mod_small. Qed.

Lemma to_signed_small (bits z : Z) :
  - 2 ^ (bits - 1) <= z < 2 ^ (bits - 1) -> 0 < bits ->
  to_signed bits z = z.
Proof.
  intros H Hb. unfold to_signed.
  replace (2 ^ bits) with (2 * 2 ^ (bits - 1)).
  - rewrite Z.mod_small by lia. lia.
  - rewrite <- Z.pow_succ_r by lia. f_equal. lia.
Qed.

(** Reading a 32-bit unsigned pattern back as [pid_t] undoes the
    conversion of a [pid_t] to unsigned. *)
Lemma pid_t_to_unsigned (bits p : Z) :
  32 <= bits -> is_pid_t p -> pid_t (to_unsigned bits p) = p.
Proof.
  intros Hb [Hlo Hhi]. unfold pid_t, to_signed, to_unsigned.
  change (32 - 1) with 31.
  assert (Hdiv : (2 ^ 32 | 2 ^ bits)).
  { exists (2 ^ (bits - 32)). rewrite <- Z.pow_add_r by lia. f_equal. lia. }
  rewrite <- (Z.mod_mod_divide (p mod 2 ^ bits + 2 ^ 31) (2 ^ bits) (2 ^ 32))
    by exact Hdiv.
  rewrite Z.add_mod_idemp_l by (apply Z.pow_nonzero; lia).
  rewrite Z.mod_mod_divide by exact Hdiv.
  change (2 ^ 32) with (2 * 2 ^ 31).
  rewrite Z.mod_small; lia.
Qed.

Lemma shift_pos (T : ValueT) : 0 < shift T.
Proof. destruct T; reflexivity. Qed.

Lemma digits_shift (T : ValueT) : 2 ^ digits T = 2 ^ shift T * 2 ^ shift T.
Proof. destruct T; reflexivity. Qed.

Lemma shift_ge_32 (T : ValueT) : 32 <= shift T.
Proof. destruct T; cbv; congruence. Qed.

(** [(ValueT(pid) << shift<ValueT>)]: the low [shift T] bits of [pid], moved
    into the high half. *)
Lemma shifted_pid (T : ValueT) (p : Z) :
  to_ValueT T (Z.shiftl (to_ValueT T p) (shift T))
  = to_unsigned (shift T) p * 2 ^ shift T.
Proof.
  pose proof (shift_pos T) as Hs.
  assert (Hp : 2 ^ shift T <> 0) by (apply Z.pow_nonzero; lia).
  unfold to_ValueT, to_unsigned.
  rewrite Z.shiftl_mul_pow2 by lia.
  rewrite digits_shift.
  rewrite Z.mul_mod_distr_r by assumption.
  rewrite Z.mod_mod_divide; [reflexivity|].
  exists (2 ^ shift T). reflexivity.
Qed.

Lemma high_of_lor (h l s : Z) :
  0 <= s -> 0 <= l < 2 ^ s -> Z.shiftr (Z.lor (h * 2 ^ s) l) s = h.
Proof.
  intros Hs Hl.
  rewrite Z.shiftr_lor, !Z.shiftr_div_pow2 by assumption.
  rewrite Z.div_mul by (apply Z.pow_nonzero; lia).
  rewrite Z.div_small by assumption.
  apply Z.lor_0_r.
Qed.

Lemma low_of_lor (h l s : Z) :
  0 <= s -> 0 <= l < 2 ^ s -> Z.lor (h * 2 ^ s) l mod 2 ^ s = l.
Proof.
  intros Hs Hl.
  rewrite <- Z.land_ones, Z.land_lor_distr_l, !Z.land_ones by assumption.
  rewrite Z.mod_mul by (apply Z.pow_nonzero; lia).
  rewrite Z.mod_small by assumption.
  apply Z.lor_0_l.
Qed.

Lemma low_of_range (T : ValueT) (tv : timeval) :
  0 <= low_of T tv < 2 ^ shift T.
Proof. destruct T; apply to_unsigned_range; cbv; congruence. Qed.

Lemma packed_halves (T : ValueT) (p : Z) (tv : timeval) :
  packed T p tv = Z.lor (to_unsigned (shift T) p * 2 ^ shift T) (low_of T tv).
Proof. destruct T; unfold packed; rewrite shifted_pid; reflexivity. Qed.

Lemma high_half_packed (T : ValueT) (p : Z) (tv : timeval) :
  high_half T (packed T p tv) = to_unsigned (shift T) p.
Proof.
  pose proof (shift_pos T). unfold high_half.
  rewrite packed_halves. apply high_of_lor; [lia | apply low_of_range].
Qed.

Lemma low_half_packed (T : ValueT) (p : Z) (tv : timeval) :
  low_half T (packed T p tv) = low_of T tv.
Proof.
  pose proof (shift_pos T). unfold low_half.
  rewrite packed_halves. apply low_of_lor; [lia | apply low_of_range].
Qed.

End Packing.

(** ** ProcessId: the packed encoding *)

Section Encoding.

Import ProcessId.

Lemma pid_of_pid_start_time (T : ValueT) (p : Z) (tv : timeval) :
  is_pid_t p -> pid T (of_pid_start_time T p tv) = p.
Proof.
  intros Hp. unfold pid, of_pid_start_time. cbn [value_].
  fold (high_half T (packed T p tv)). rewrite high_half_packed.
  apply pid_t_to_unsigned; [apply shift_ge_32 | exact Hp].
Qed.

(** The start time read back packs to the same low half. *)
Lemma low_of_start_time (T : ValueT) (p : Z) (tv : timeval) :
  low_of T (start_time T (of_pid_start_time T p tv)) = low_of T tv.
Proof.
  unfold start_time, of_pid_start_time. cbn [value_].
  destruct T; cbn [low_of tv_sec tv_usec].
  - (* 64 bits: seconds since the epoch, modulo 2^32 *)
    fold (low_half uint64_t (packed uint64_t p tv)).
    change (uint32 (packed uint64_t p tv))
      with (low_half uint64_t (packed uint64_t p tv)).
    rewrite low_half_packed. cbn [low_of].
    set (k := uint32 (tv_sec tv - epoch)).
    assert (Hk : 0 <= k < 2 ^ 32) by (apply to_unsigned_range; lia).
    assert (He : 0 <= uint32 (epoch + k) < 2 ^ 32)
      by (apply to_unsigned_range; lia).
    unfold time_t.
    rewrite to_signed_small by (change (2 ^ (64 - 1)) with (2 ^ 63); lia).
    unfold uint32, to_unsigned.
    rewrite Zminus_mod_idemp_l.
    replace (epoch + k - epoch) with k by lia.
    apply Z.mod_small; exact Hk.
  - (* 128 bits: microseconds since 1970, modulo 2^64 *)
    change (uint64 (packed uint128_t p tv))
      with (low_half uint128_t (packed uint128_t p tv)).
    rewrite low_half_packed. cbn [low_of].
    set (k := uint64 (1000000 * uint64 (tv_sec tv) + uint64 (tv_usec tv))).
    assert (Hk : 0 <= k < 2 ^ 64) by (apply to_unsigned_range; lia).
    assert (Hq : 0 <= k / 1000000 < 2 ^ 63).
    { split; [apply Z.div_pos; lia|].
      apply Z.div_lt_upper_bound; [lia|].
      change (2 ^ 64) with 18446744073709551616 in Hk.
      change (2 ^ 63) with 9223372036854775808. lia. }
    assert (Hr : 0 <= k mod 1000000 < 1000000)
      by (apply Z.mod_pos_bound; lia).
    unfold time_t, suseconds_t.
    rewrite !to_signed_small
      by (change (2 ^ (64 - 1)) with 9223372036854775808; lia).
    change (2 ^ 63) with 9223372036854775808 in Hq.
    unfold uint64 at 1 2 3.
    rewrite (to_unsigned_small 64 (k / 1000000))
      by (change (2 ^ 64) with 18446744073709551616; lia).
    rewrite (to_unsigned_small 64 (k mod 1000000))
      by (change (2 ^ 64) with 18446744073709551616; lia).
    rewrite <- Z.div_mod by lia.
    apply to_unsigned_small; exact Hk.
Qed.

(** The round trip holds for every [pid_t], negative ones included. *)
Lemma roundtrip_any_pid (T : ValueT) (p : Z) (tv : timeval) :
  is_pid_t p ->
  let id := of_pid_start_time T p tv in
  of_pid_start_time T (pid T id) (start_time T id) = id.
Proof.
  intros Hp id. subst id.
  rewrite pid_of_pid_start_time by exact Hp.
  unfold of_pid_start_time at 1 3. f_equal.
  rewrite !packed_halves. f_equal.
  apply low_of_start_time.
Qed.

(** Two identifiers built by the constructor with the same [pid()] and the
    same [start_time()] are equal: an identifier that differs from the
    recorded holder of the same pid differs in its start time. *)
Lemma equal_by_projections (T : ValueT) (p1 p2 : Z) (tv1 tv2 : timeval) :
  is_pid_t p1 -> is_pid_t p2 ->
  let a := of_pid_start_time T p1 tv1 in
  let b := of_pid_start_time T p2 tv2 in
  pid T a = pid T b -> start_time T a = start_time T b -> a = b.
Proof.
  intros H1 H2 a b Hpid Hst. subst a b.
  rewrite <- (roundtrip_any_pid T p1 tv1 H1).
  rewrite <- (roundtrip_any_pid T p2 tv2 H2).
  now rewrite Hpid, Hst.
Qed.

(** C5. Round trip of the packed encoding: for an identifier [id] built by
    [ProcessId(pid, start_time)] from a non-negative [pid_t] (which fits
    the high half), [ProcessId(id.pid(), id.start_time()) == id] and
    [ProcessId(pid, start_time).pid() == pid], at either width of [Value]. *)
Theorem packed_roundtrip (T : ValueT) (p : Z) (tv : timeval) :
  is_pid_t p -> 0 <= p < 2 ^ shift T ->
  let id := of_pid_start_time T p tv in
  of_pid_start_time T (pid T id) (start_time T id) = id
  /\ eqb (of_pid_start_time T (pid T id) (start_time T id)) id = true
  /\ pid T id = p.
Proof.
  intros Hp _ id. subst id.
  pose proof (roundtrip_any_pid T p tv Hp) as Hr. cbv zeta in Hr.
  split; [|split].
  - exact Hr.
  - unfold eqb. rewrite Hr. apply Z.eqb_refl.
  - apply pid_of_pid_start_time; exact Hp.
Qed.

End Encoding.

Section EncodingLayout.

Import ProcessId.

Lemma uint64_sum (s u : Z) :
  uint64 (1000000 * uint64 s + uint64 u) = to_unsigned 64 (s * 1000000 + u).
Proof.
  unfold uint64, to_unsigned.
  rewrite Zplus_mod_idemp_r, <- Zplus_mod_idemp_l.
  rewrite Zmult_mod_idemp_r, Zplus_mod_idemp_l.
  f_equal. lia.
Qed.

(** Values in range are stored as they are: a non-negative pid in the high
    half, and a microsecond count below 2^64 in the 64-bit low half. *)
Lemma high_half_in_range (T : ValueT) (p : Z) (tv : timeval) :
  is_pid_t p -> 0 <= p -> high_half T (packed T p tv) = p.
Proof.
  intros [_ Hhi] Hlo.
  rewrite high_half_packed. apply to_unsigned_small.
  split; [exact Hlo|].
  apply Z.lt_le_trans with (2 ^ 31); [exact Hhi|].
  apply Z.pow_le_mono_r; [lia|]. pose proof (shift_ge_32 T). lia.
Qed.

Lemma low_half_in_range (p : Z) (tv : timeval) :
  0 <= tv_sec tv * 1000000 + tv_usec tv < 2 ^ 64 ->
  low_half uint128_t (packed uint128_t p tv)
  = tv_sec tv * 1000000 + tv_usec tv.
Proof.
  intros Hr. rewrite low_half_packed. cbn [low_of].
  rewrite uint64_sum. apply to_unsigned_small; exact Hr.
Qed.

(** [epoch] is midnight of 2024-01-01 UTC: 54 years of 365 days and 13
    leap days after 1970-01-01, in seconds. *)
Lemma epoch_2024_01_01 : epoch = (54 * 365 + 13) * 86400.
Proof. reflexivity. Qed.

(** C6. The packed value of [ProcessId(pid, start_time)]: with
    [W = digits / 2], the high half is the pid converted to [W] bits (the
    pid itself when it is not negative); for [W = 32] the low half is
    [tv_sec - epoch] truncated to 32 bits, the microseconds are dropped and
    [start_time()] gives [tv_usec = 0]; for [W = 64] the low half is
    [tv_sec * 1000000 + tv_usec] as a 64-bit number (that very number when
    it is in range). *)
Theorem packed_encoding (T : ValueT) (p : Z) (tv : timeval) :
  let id := of_pid_start_time T p tv in
  let W := digits T / 2 in
  shift T = W
  /\ high_half T (value_ id) = to_unsigned W p
  /\ (is_pid_t p -> 0 <= p -> high_half T (value_ id) = p)
  /\ match T with
     | uint64_t =>
         W = 32
         /\ low_half T (value_ id) = to_unsigned 32 (tv_sec tv - epoch)
         /\ tv_usec (start_time T id) = 0
     | uint128_t =>
         W = 64
         /\ low_half T (value_ id)
            = to_unsigned 64 (tv_sec tv * 1000000 + tv_usec tv)
         /\ (0 <= tv_sec tv * 1000000 + tv_usec tv < 2 ^ 64 ->
             low_half T (value_ id) = tv_sec tv * 1000000 + tv_usec tv)
     end.
Proof.
  intros id W. subst id W. unfold of_pid_start_time. cbn [value_].
  split; [reflexivity|]. split; [apply high_half_packed|].
  split; [intros Hp Hpos; now apply high_half_in_range|].
  destruct T.
  - rewrite low_half_packed. cbn [low_of].
    split; [reflexivity|]. split; reflexivity.
  - split; [reflexivity|]. split.
    + rewrite low_half_packed. apply uint64_sum.
    + apply low_half_in_range.
Qed.

Lemma to_unsigned_pid_nonzero (T : ValueT) (p : Z) :
  is_pid_t p -> p <> 0 -> to_unsigned (shift T) p <> 0.
Proof.
  intros [Hlo Hhi] Hnz. unfold to_unsigned.
  assert (Hw : 2 ^ 31 < 2 ^ shift T).
  { apply Z.pow_lt_mono_r; [lia | | ]; pose proof (shift_ge_32 T); lia. }
  destruct (Z.lt_ge_cases p 0) as [Hneg | Hpos].
  - rewrite <- (Z.mod_add p 1) by lia.
    rewrite Z.mod_small; lia.
  - rewrite Z.mod_small; lia.
Qed.

(** C8. No (pid, start-time) pair with [pid <> 0] collides with the null
    identifier: [ProcessId(pid, start_time) != ProcessId::null()], where
    [null()] is the value whose bytes are all zero. *)
Theorem packed_never_null (T : ValueT) (p : Z) (tv : timeval) :
  is_pid_t p -> p <> 0 ->
  of_pid_start_time T p tv <> null
  /\ eqb (of_pid_start_time T p tv) null = false
  /\ value_ null = 0.
Proof.
  intros Hp Hnz.
  assert (Hv : packed T p tv <> 0).
  { intros H0.
    apply (to_unsigned_pid_nonzero T p Hp Hnz).
    rewrite <- (high_half_packed T p tv), H0.
    unfold high_half. apply Z.shiftr_0_l. }
  split; [|split].
  - unfold of_pid_start_time, null. intros H. injection H as H. contradiction.
  - unfold eqb, of_pid_start_time, null. cbn [value_].
    apply Z.eqb_neq. exact Hv.
  - reflexivity.
Qed.

End EncodingLayout.

(** ** ProcessId: looking a process up *)

Section Lookup.

Import ProcessId.
Local Open Scope string_scope.

Variable Value : ValueT.
Variable strerror : Z -> string.
Variable start_time_of : Z -> probe.

Lemma append_assoc (a b c : string) : (a ++ b) ++ c = a ++ b ++ c.
Proof. induction a as [|x a IH]; cbn; [reflexivity | now rewrite IH]. Qed.

Lemma append_empty_r (a : string) : a ++ "" = a.
Proof. induction a as [|x a IH]; cbn; [reflexivity | now rewrite IH]. Qed.

(** [maybe] returns; it never throws. *)
Lemma maybe_returns (p : Z) :
  maybe Value strerror start_time_of p
  = Ok (option_map (of_pid_start_time Value p)
                   (probe_time (start_time_of p))).
Proof. unfold maybe. destruct (probe_time (start_time_of p)); reflexivity. Qed.

(** The message of the lookup error. *)
Lemma of_pid_throws (p : Z) :
  probe_time (start_time_of p) = None ->
  of_pid Value strerror start_time_of p
  = Throw (runtime_error
             ("can't get process start time: pid=" ++ show_int p
              ++ (if (probe_errno (start_time_of p) =? 0)%Z then ""
                  else ": " ++ strerror (probe_errno (start_time_of p))))).
Proof.
  intros Hnone. unfold of_pid. rewrite Hnone. cbn [value_from].
  destruct (probe_errno (start_time_of p) =? 0)%Z; cbn [negb].
  - now rewrite append_empty_r.
  - now rewrite append_assoc.
Qed.

(** C7. [maybe(pid)] and the bare-pid constructor surface the same lookup:
    when [start_time_of(pid)] has no value, [maybe] returns the empty
    optional (it does not throw) and [ProcessId(pid)] throws a
    [runtime_error] whose message carries the pid in decimal, followed by
    the [strerror] text when [errno] is set; when it has a value both give
    the identifier packed from it. *)
Theorem lookup_outcome (p : Z) :
  let r := start_time_of p in
  match probe_time r with
  | None =>
      maybe Value strerror start_time_of p = Ok None
      /\ of_pid Value strerror start_time_of p
         = Throw (runtime_error
                    ("can't get process start time: pid=" ++ show_int p
                     ++ (if (probe_errno r =? 0)%Z then ""
                         else ": " ++ strerror (probe_errno r))))
  | Some tv =>
      maybe Value strerror start_time_of p
      = Ok (Some (of_pid_start_time Value p tv))
      /\ of_pid Value strerror start_time_of p
         = Ok (of_pid_start_time Value p tv)
  end.
Proof.
  intros r. subst r. rewrite maybe_returns.
  destruct (probe_time (start_time_of p)) as [tv|] eqn:Hprobe;
    cbn [option_map].
  - split; [reflexivity|]. unfold of_pid. now rewrite Hprobe.
  - split; [reflexivity|]. now apply of_pid_throws.
Qed.

End Lookup.

(** ** Atomic: the orders [store] accepts *)

Section AtomicStore.

Variable T : Type.

(** On a fundamental type the three documented orders pass the assertion
    and the value is written. *)
Lemma store_fundamental (NDEBUG : bool) (v : T) (order : memory_order)
    (a : Atomic.t T) :
  Atomic.store_order order = true ->
  Atomic.store T true NDEBUG v order a
  = (Ok tt, Atomic.mk v (Atomic.foreign (Atomic.arrive a))).
Proof. destruct order, NDEBUG; intros H; try discriminate H; reflexivity. Qed.

(** On any other type [relaxed] and [seq_cst] pass as well. *)
Lemma store_class_type (NDEBUG : bool) (v : T) (order : memory_order)
    (a : Atomic.t T) :
  order = memory_order_relaxed \/ order = memory_order_seq_cst ->
  Atomic.store T false NDEBUG v order a
  = (Ok tt, Atomic.mk v (Atomic.foreign (Atomic.arrive a))).
Proof. intros [-> | ->]; destruct NDEBUG; reflexivity. Qed.

(** C4, at the input where it fails. [store] documents [relaxed], [release]
    and [seq_cst] as its orders, but for a type that is not fundamental the
    order is checked against [relaxed, acquire, consume, seq_cst]: with
    assertions on, [store(v, memory_order_release)] aborts and writes
    nothing. *)
Theorem store_release_class_type_aborts (v : T) (a : Atomic.t T) :
  Atomic.store T false false v memory_order_release a = (AssertFail, a).
Proof. reflexivity. Qed.

(** What [store] wrote is what [load] then finds, when nobody writes in
    between. *)
Lemma store_then_load (fundamental NDEBUG : bool) (v0 v : T) :
  Atomic.bind
    (Atomic.store T fundamental NDEBUG v memory_order_seq_cst)
    (fun _ => Atomic.load T fundamental NDEBUG memory_order_seq_cst)
    (Atomic.quiet v0)
  = (Ok v, Atomic.quiet v).
Proof. destruct fundamental, NDEBUG; reflexivity. Qed.

(** With [NDEBUG] the same call stores. *)
Lemma store_release_class_type_ndebug (v : T) (a : Atomic.t T) :
  Atomic.store T false true v memory_order_release a
  = (Ok tt, Atomic.mk v (Atomic.foreign (Atomic.arrive a))).
Proof. reflexivity. Qed.

End AtomicStore.

(** ** ProcessIdLock *)

Section Lock.

Import ProcessId.

Variable Value : ValueT.
Variable strerror : Z -> string.
Variable start_time_of : Z -> probe.
Variable getpid : Z.
Variable NDEBUG : bool.

Abbreviation lock_t := (Atomic.t ProcessId.t).
Abbreviation exchange := (ProcessIdLock.exchange NDEBUG).
Abbreviation try_lock_impl :=
  (ProcessIdLock.try_lock_impl Value strerror start_time_of NDEBUG).
Abbreviation try_lock :=
  (ProcessIdLock.try_lock Value strerror start_time_of getpid NDEBUG).
Abbreviation unlock :=
  (ProcessIdLock.unlock Value strerror start_time_of getpid NDEBUG).
Abbreviation maybe := (ProcessId.maybe Value strerror start_time_of).
Abbreviation current :=
  (ProcessId.current Value strerror start_time_of getpid).

Lemma id_eqb_eq (a b : ProcessId.t) : eqb a b = true <-> a = b.
Proof.
  destruct a as [x], b as [y]. unfold eqb. cbn [value_].
  rewrite Z.eqb_eq.
  split; [intros ->; reflexivity | intros H; now injection H].
Qed.

Lemma id_eqb_neq (a b : ProcessId.t) : eqb a b = false <-> a <> b.
Proof.
  rewrite <- id_eqb_eq. destruct (eqb a b); split; congruence.
Qed.

Lemma id_eqb_refl (a : ProcessId.t) : eqb a a = true.
Proof. now apply id_eqb_eq. Qed.

(** What [exchange] does: a strong compare-exchange, whose order
    assertions hold for the default [seq_cst].  It succeeds and writes
    [desired] exactly when the object holds [expected]; else it writes
    nothing and reports the value held. *)
Lemma exchange_spec (expected desired : ProcessId.t) (lock : lock_t) :
  exchange expected desired lock
  = let found := Atomic.arrive lock in
    if eqb (Atomic.value_ found) expected
    then (Ok (true, expected), Atomic.mk desired (Atomic.foreign found))
    else (Ok (false, Atomic.value_ found), found).
Proof. destruct NDEBUG; reflexivity. Qed.

Lemma exchange_hit (expected desired : ProcessId.t) (lock : lock_t) :
  Atomic.value_ (Atomic.arrive lock) = expected ->
  exchange expected desired lock
  = (Ok (true, expected),
     Atomic.mk desired (Atomic.foreign (Atomic.arrive lock))).
Proof.
  intros H. rewrite exchange_spec. cbv zeta. now rewrite H, id_eqb_refl.
Qed.

Lemma exchange_miss (expected desired : ProcessId.t) (lock : lock_t) :
  Atomic.value_ (Atomic.arrive lock) <> expected ->
  exchange expected desired lock
  = (Ok (false, Atomic.value_ (Atomic.arrive lock)), Atomic.arrive lock).
Proof.
  intros H. rewrite exchange_spec. cbv zeta.
  apply id_eqb_neq in H. now rewrite H.
Qed.

(** [exchange] always returns, with a flag that tells whether the object
    held [expected]. *)
Lemma exchange_returns (expected desired : ProcessId.t) (lock : lock_t) :
  exists x lock',
    exchange expected desired lock
    = (Ok (eqb (Atomic.value_ (Atomic.arrive lock)) expected, x), lock').
Proof.
  rewrite exchange_spec. cbv zeta.
  destruct (eqb (Atomic.value_ (Atomic.arrive lock)) expected); eauto.
Qed.

(** The lock is free: the first compare-exchange takes it. *)
Lemma try_lock_impl_free (me : ProcessId.t) (lock : lock_t) :
  Atomic.value_ (Atomic.arrive lock) = null ->
  try_lock_impl me lock
  = (Ok true, Atomic.mk me (Atomic.foreign (Atomic.arrive lock))).
Proof.
  intros H. unfold ProcessIdLock.try_lock_impl, Atomic.bind.
  now rewrite exchange_hit.
Qed.

(** The lock holds the caller's own identifier: no probe, no write. *)
Lemma try_lock_impl_own (me : ProcessId.t) (lock : lock_t) :
  me <> null ->
  Atomic.value_ (Atomic.arrive lock) = me ->
  try_lock_impl me lock = (Ok false, Atomic.arrive lock).
Proof.
  intros Hme H. unfold ProcessIdLock.try_lock_impl, Atomic.bind.
  rewrite exchange_miss by congruence.
  now rewrite H, id_eqb_refl.
Qed.

(** The holder is another process and the probe finds it as recorded. *)
Lemma try_lock_impl_alive (me h : ProcessId.t) (lock : lock_t) :
  Atomic.value_ (Atomic.arrive lock) = h -> h <> null -> h <> me ->
  maybe (pid Value h) = Ok (Some h) ->
  try_lock_impl me lock = (Ok false, Atomic.arrive lock).
Proof.
  intros H Hnull Hme Hp. unfold ProcessIdLock.try_lock_impl, Atomic.bind.
  rewrite exchange_miss by congruence. rewrite H.
  apply id_eqb_neq in Hme. rewrite Hme. cbn [negb].
  unfold Atomic.lift. rewrite Hp, id_eqb_refl. reflexivity.
Qed.

(** The holder is another process and the probe finds nothing, or finds a
    different identifier: compare-exchange [h -> null], whatever its
    result, then compare-exchange [null -> me], whose result is returned. *)
Lemma try_lock_impl_dead (me h : ProcessId.t) (lock : lock_t) :
  Atomic.value_ (Atomic.arrive lock) = h -> h <> null -> h <> me ->
  (maybe (pid Value h) = Ok None
   \/ exists p, maybe (pid Value h) = Ok (Some p) /\ p <> h) ->
  exists b1 x1 lock2 b2 x2 lock3,
    exchange h null (Atomic.arrive lock) = (Ok (b1, x1), lock2)
    /\ exchange null me lock2 = (Ok (b2, x2), lock3)
    /\ try_lock_impl me lock = (Ok b2, lock3).
Proof.
  intros H Hnull Hme Hp.
  destruct (exchange_returns h null (Atomic.arrive lock)) as (x1 & lock2 & E1).
  destruct (exchange_returns null me lock2) as (x2 & lock3 & E2).
  do 6 eexists. split; [exact E1|]. split; [exact E2|].
  unfold ProcessIdLock.try_lock_impl, Atomic.bind.
  rewrite exchange_miss by congruence. rewrite H.
  apply id_eqb_neq in Hme. rewrite Hme. cbn [negb]. unfold Atomic.lift.
  assert (Hif : forall r : bool * ProcessId.t,
             (if fst r then Atomic.ret (T := ProcessId.t) true
              else Atomic.ret false) lock3
             = (Ok (fst r), lock3)) by (intros [[] ?]; reflexivity).
  destruct Hp as [Hp | (p & Hp & Hne)]; rewrite Hp.
  - rewrite E1, E2. apply (Hif (_, x2)).
  - assert (Hpe : eqb h p = false) by (apply id_eqb_neq; congruence).
    rewrite Hpe. cbn [negb]. rewrite E1, E2. apply (Hif (_, x2)).
Qed.

(** Nobody else touches the lock: the reclaim succeeds. *)
Lemma try_lock_impl_dead_quiet (me h : ProcessId.t) :
  h <> null -> h <> me ->
  (maybe (pid Value h) = Ok None
   \/ exists p, maybe (pid Value h) = Ok (Some p) /\ p <> h) ->
  try_lock_impl me (Atomic.quiet h) = (Ok true, Atomic.quiet me).
Proof.
  intros Hnull Hme Hp.
  destruct (try_lock_impl_dead me h (Atomic.quiet h) eq_refl Hnull Hme Hp)
    as (b1 & x1 & lock2 & b2 & x2 & lock3 & E1 & E2 & ->).
  rewrite exchange_hit in E1 by reflexivity.
  injection E1 as _ _ <-.
  rewrite exchange_hit in E2 by reflexivity.
  now injection E2 as <- _ <-.
Qed.

Lemma try_lock_as (me : ProcessId.t) (lock : lock_t) :
  current = Ok me -> try_lock lock = try_lock_impl me lock.
Proof.
  intros Hc. unfold ProcessIdLock.try_lock, Atomic.bind, Atomic.lift.
  now rewrite Hc.
Qed.

Lemma unlock_as (me : ProcessId.t) (lock : lock_t) :
  current = Ok me ->
  unlock lock
  = match exchange me null lock with
    | (Ok (released, _), lock') => (assert NDEBUG released, lock')
    | (Throw e, lock') => (Throw e, lock')
    | (AssertFail, lock') => (AssertFail, lock')
    end.
Proof.
  intros Hc. unfold ProcessIdLock.unlock, Atomic.bind, Atomic.lift.
  rewrite Hc. destruct (exchange me null lock) as [[[r x]| |] lock'];
    reflexivity.
Qed.

(** The holder releases: the cell goes back to null, no assertion. *)
Lemma unlock_owner (me : ProcessId.t) (lock : lock_t) :
  current = Ok me ->
  Atomic.value_ (Atomic.arrive lock) = me ->
  unlock lock
  = (Ok tt, Atomic.mk null (Atomic.foreign (Atomic.arrive lock))).
Proof.
  intros Hc H. rewrite (unlock_as me) by exact Hc.
  rewrite exchange_hit by exact H. unfold assert.
  destruct NDEBUG; reflexivity.
Qed.

(** C1, as the code has it. When the probe of the recorded holder fails
    ([start_time_of] has no value for its pid), the holder counts as dead:
    [try_lock] takes the lock from it.  With nobody else at the lock it
    returns true and the cell holds the caller's identifier. *)
Theorem probe_failure_reclaims (me h : ProcessId.t) :
  current = Ok me ->
  h <> null -> h <> me ->
  probe_time (start_time_of (pid Value h)) = None ->
  try_lock (Atomic.quiet h) = (Ok true, Atomic.quiet me).
Proof.
  intros Hc Hnull Hme Hprobe.
  rewrite (try_lock_as me) by exact Hc.
  apply try_lock_impl_dead_quiet; [exact Hnull | exact Hme |].
  left. rewrite maybe_returns, Hprobe. reflexivity.
Qed.

(** C2. In [try_lock], when the first compare-exchange (null to the
    caller's identifier) fails having observed a holder [h] that is not the
    caller, the process behind [h.pid()] is probed.  If the probe returns
    nothing, or an identifier whose start time differs from
    [h.start_time()], the cell is compare-exchanged from [h] to null: it
    becomes null if it still holds [h] and is left alone if not, and the
    result is not used; then it is compare-exchanged from null to the
    caller's identifier: if it is found null the caller's identifier is
    written and [try_lock] returns true, and if not nothing is written and
    [try_lock] returns false.  If the probe returns an identifier equal to
    [h], [try_lock] returns false and the cell is as it was found.  The
    other processes may write the cell before each of the three
    accesses. *)
Theorem try_lock_orphan_detection (me h : ProcessId.t) (lock : lock_t) :
  current = Ok me ->
  let found := Atomic.arrive lock in
  Atomic.value_ found = h -> h <> null -> h <> me ->
  ((maybe (pid Value h) = Ok None
    \/ exists p, maybe (pid Value h) = Ok (Some p)
                 /\ start_time Value p <> start_time Value h) ->
   let second := Atomic.arrive found in
   let released :=
     if eqb (Atomic.value_ second) h
     then Atomic.mk null (Atomic.foreign second)
     else second in
   let third := Atomic.arrive released in
   try_lock lock
   = if eqb (Atomic.value_ third) null
     then (Ok true, Atomic.mk me (Atomic.foreign third))
     else (Ok false, third))
  /\ (maybe (pid Value h) = Ok (Some h) ->
      try_lock lock = (Ok false, found)).
Proof.
  intros Hc found Hh Hnull Hme.
  rewrite (try_lock_as me) by exact Hc.
  split.
  - intros Hp second released third.
    assert (Hdead : maybe (pid Value h) = Ok None
                    \/ exists p, maybe (pid Value h) = Ok (Some p)
                                 /\ p <> h).
    { destruct Hp as [Hp | (p & Hp & Hst)]; [now left | right].
      exists p. split; [exact Hp | congruence]. }
    destruct (try_lock_impl_dead me h lock Hh Hnull Hme Hdead)
      as (b1 & x1 & lock2 & b2 & x2 & lock3 & E1 & E2 & ->).
    rewrite exchange_spec in E1. cbv zeta in E1. fold found second in E1.
    assert (Hrel : lock2 = released).
    { subst released.
      destruct (eqb (Atomic.value_ second) h); now injection E1. }
    subst lock2.
    rewrite exchange_spec in E2. cbv zeta in E2. fold third in E2.
    destruct (eqb (Atomic.value_ third) null);
      injection E2 as <- _ <-; reflexivity.
  - intros Hp. now apply try_lock_impl_alive with (h := h).
Qed.

(** C3. A zero-initialised lock used by one live process whose identifier
    [me] is not null: [try_lock] returns true and stores [me]; the next
    [try_lock] finds [me] as holder, returns false and leaves the cell as
    it is; [unlock] puts null back; [try_lock] then returns true again.
    The last conjunct runs the four calls in sequence. *)
Theorem single_process_try_lock_unlock (me : ProcessId.t) :
  current = Ok me -> me <> null ->
  try_lock (Atomic.quiet null) = (Ok true, Atomic.quiet me)
  /\ try_lock (Atomic.quiet me) = (Ok false, Atomic.quiet me)
  /\ unlock (Atomic.quiet me) = (Ok tt, Atomic.quiet null)
  /\ Atomic.bind try_lock (fun r1 =>
     Atomic.bind try_lock (fun r2 =>
     Atomic.bind unlock (fun _ =>
     Atomic.bind try_lock (fun r3 =>
     Atomic.ret (r1, r2, r3))))) (Atomic.quiet null)
     = (Ok (true, false, true), Atomic.quiet me).
Proof.
  intros Hc Hme.
  assert (E1 : try_lock (Atomic.quiet null) = (Ok true, Atomic.quiet me)).
  { rewrite (try_lock_as me) by exact Hc. now rewrite try_lock_impl_free. }
  assert (E2 : try_lock (Atomic.quiet me) = (Ok false, Atomic.quiet me)).
  { rewrite (try_lock_as me) by exact Hc. now rewrite try_lock_impl_own. }
  assert (E3 : unlock (Atomic.quiet me) = (Ok tt, Atomic.quiet null)).
  { now rewrite (unlock_owner me). }
  repeat split; try assumption.
  unfold Atomic.bind at 1. rewrite E1.
  unfold Atomic.bind at 1. rewrite E2.
  unfold Atomic.bind at 1. rewrite E3.
  unfold Atomic.bind at 1. rewrite E1. reflexivity.
Qed.

(** C10. [unlock] releases through a compare-exchange from the caller's
    identifier to null and in no other way: when the cell does not hold
    the caller's identifier at that moment, nothing is written, so the
    record of another owner stays, and the assertion fails unless [NDEBUG]
    is defined.  The lock after [unlock] is the lock after that one
    compare-exchange. *)
Theorem unlock_not_owner (me : ProcessId.t) (lock : lock_t) :
  current = Ok me ->
  Atomic.value_ (Atomic.arrive lock) <> me ->
  unlock lock = (if NDEBUG then Ok tt else AssertFail, Atomic.arrive lock)
  /\ Atomic.value_ (snd (unlock lock)) = Atomic.value_ (Atomic.arrive lock)
  /\ snd (unlock lock) = snd (exchange me null lock).
Proof.
  intros Hc H.
  assert (E : unlock lock
              = (if NDEBUG then Ok tt else AssertFail, Atomic.arrive lock)).
  { rewrite (unlock_as me) by exact Hc.
    rewrite exchange_miss by exact H. reflexivity. }
  split; [exact E|]. split; [now rewrite E|].
  rewrite E, exchange_miss by exact H. reflexivity.
Qed.

End Lock.

(** ** The Linux probe *)

Section LinuxProbe.

Import ProcessId Linux.
Local Open Scope string_scope.

Lemma span_all (p : ascii -> bool) (tok r : string) :
  all p tok = true -> head_is p r = false -> span p (tok ++ r) = (tok, r).
Proof.
  intros Ha Hr. induction tok as [|c tok IH]; cbn [append].
  - destruct r as [|c r]; cbn in *; [reflexivity | now rewrite Hr].
  - cbn in Ha. apply Bool.andb_true_iff in Ha as [Hc Ha].
    cbn [span]. rewrite Hc, (IH Ha). reflexivity.
Qed.

Lemma skip_space_head (s : string) :
  head_is isspace s = false -> skip_space s = s.
Proof.
  unfold skip_space. destruct s as [|c s]; cbn; [reflexivity|].
  now intros ->.
Qed.

Lemma skip_space_blank (s : string) :
  head_is isspace s = false -> skip_space (String " " s) = s.
Proof.
  intros H. apply skip_space_head in H. unfold skip_space in *.
  cbn. destruct (span isspace s). exact H.
Qed.

(** A decimal digit is neither white space nor a sign. *)
Lemma isdigit_cases (d : ascii) :
  isdigit d = true ->
  isspace d = false /\ d <> "-"%char /\ d <> "+"%char.
Proof.
  destruct d as [[] [] [] [] [] [] [] []]; cbv; intros H;
    try discriminate H; repeat split; congruence.
Qed.

Lemma is_digits_all (f : string) :
  is_digits f = true -> all isdigit f = true /\ f <> "".
Proof. destruct f; cbn; [discriminate | now split]. Qed.

(** Scanning an unsigned field gives its digits and stops right after. *)
Lemma scan_number_digits (f s : string) :
  is_digits f = true -> head_is isdigit s = false ->
  scan_number (f ++ s) = Some (false, f, s).
Proof.
  intros Hf Hs. destruct f as [|d ds]; [discriminate Hf|].
  cbn in Hf. apply Bool.andb_true_iff in Hf as [Hd Hds].
  destruct (isdigit_cases d Hd) as (Hsp & Hminus & Hplus).
  unfold scan_number. rewrite skip_space_head by (cbn; exact Hsp).
  assert (Hspan : span isdigit (String d ds ++ s) = (String d ds, s)).
  { apply span_all; [cbn; now rewrite Hd | exact Hs]. }
  cbn [append] in *.
  destruct d as [[] [] [] [] [] [] [] []];
    try (exfalso; congruence); try discriminate Hd;
    now rewrite Hspan.
Qed.

(** Scanning a signed field consumes it, whatever its value. *)
Lemma scan_number_field (f s : string) :
  is_number f = true -> head_is isdigit s = false ->
  exists neg ds, scan_number (f ++ s) = Some (neg, ds, s).
Proof.
  intros Hf Hs.
  destruct (is_digits f) eqn:Hd.
  - exists false, f. now apply scan_number_digits.
  - destruct f as [|c f]; [discriminate Hf|].
    assert (Hc : c = "-"%char /\ is_digits f = true).
    { destruct c as [[] [] [] [] [] [] [] []]; cbn in Hf, Hd;
        try congruence; now split. }
    destruct Hc as [-> Hf'].
    exists true, f. unfold scan_number.
    rewrite skip_space_head by reflexivity.
    cbn [append].
    destruct (is_digits_all f Hf') as [Hall Hne].
    rewrite (span_all isdigit f s Hall Hs).
    destruct f; [congruence | reflexivity].
Qed.

Lemma scan_number_skipped (ds : list directive) (cv : conv) (f s : string) :
  cv = conv_d \/ cv = conv_u ->
  is_number f = true -> head_is isdigit s = false ->
  scan (d_conv true cv :: ds) (f ++ s) = scan ds s.
Proof.
  intros Hcv Hf Hs.
  destruct (scan_number_field f s Hf Hs) as (neg & digs & E).
  cbn [scan]. destruct Hcv as [-> | ->]; cbn [convert]; now rewrite E.
Qed.




(** The format of the probe: 22 conversions, one per field; [%c] at field 3
    and [%llu] at field 22 are the two that assign. *)
Lemma stat_format_fields :
  exists ds,
    parse_format stat_format = Some ds
    /\ List.length (conversions ds) = 22%nat
    /\ nth_error (conversions ds) 2 = Some (false, conv_c)
    /\ nth_error (conversions ds) 21 = Some (false, conv_llu)
    /\ List.filter (fun c => negb (fst c)) (conversions ds)
       = [(false, conv_c); (false, conv_llu)].
Proof. eexists. split; [vm_compute; reflexivity|]. repeat split. Qed.


Lemma retries_spec (bytes : string) :
  let n := Z.of_nat (String.length bytes) in
  let r := retries bytes in
  (0 <= r <= n)%Z /\ (n < 8191 + 1024 * r)%Z
  /\ (0 < r -> 8191 + 1024 * (r - 1) <= n)%Z.
Proof.
  intros n r. subst r. unfold retries. fold n.
  assert (Hn : (0 <= n)%Z) by (subst n; lia).
  destruct (Z.ltb_spec n 8191); [lia|].
  pose proof (Z.div_mod (n - 8191) 1024 ltac:(lia)) as Hd.
  pose proof (Z.mod_pos_bound (n - 8191) 1024 ltac:(lia)) as Hm.
  lia.
Qed.

(** The read loop ends: from round [k] on it retries up to round
    [retries bytes], where it hands over the whole file, or reports an
    empty one as an error; the buffers of all rounds stay on the stack. *)
Lemma read_loop_rounds (bytes : string) (fuel : nat) :
  forall k stack : Z,
    (0 <= k <= retries bytes)%Z ->
    (retries bytes - k <= Z.of_nat fuel)%Z ->
    read_loop fuel (8192 + 1024 * k) stack bytes
    = Some (match bytes with
            | EmptyString => None
            | _ => Some (c_str bytes)
            end,
            (stack + 8192 * (retries bytes - k + 1)
             + 512 * (retries bytes * (retries bytes + 1) - k * (k - 1)))%Z).
Proof.
  destruct (retries_spec bytes) as (Hr & Hfit & Hfull).
  set (n := Z.of_nat (String.length bytes)) in *.
  set (r := retries bytes) in *.
  induction fuel as [|fuel IH]; intros k stack Hk Hfuel;
    cbn [read_loop]; fold n;
    destruct (Z.min_spec n (8192 + 1024 * k - 1)) as [[Hlt ->] | [Hge ->]].
  - assert (k = r) by lia. subst k.
    destruct bytes as [|c bytes].
    + cbn in n. subst n. cbn. f_equal. f_equal. lia.
    + assert (0 < n)%Z by (subst n; cbn [String.length]; lia).
      destruct (Z.leb_spec n 0); [lia|].
      destruct (Z.eqb_spec n (8192 + 1024 * r - 1)); [lia|].
      f_equal. f_equal. lia.
  - assert (k = r) by lia. subst k. lia.
  - assert (k = r) by lia. subst k.
    destruct bytes as [|c bytes].
    + cbn in n. subst n. cbn. f_equal. f_equal. lia.
    + assert (0 < n)%Z by (subst n; cbn [String.length]; lia).
      destruct (Z.leb_spec n 0); [lia|].
      destruct (Z.eqb_spec n (8192 + 1024 * r - 1)); [lia|].
      f_equal. f_equal. lia.
  - destruct (Z.leb_spec (8192 + 1024 * k - 1) 0); [lia|].
    rewrite Z.eqb_refl.
    assert (Hkr : (k < r)%Z) by lia.
    replace (8192 + 1024 * k + 1024)%Z with (8192 + 1024 * (k + 1))%Z
      by lia.
    rewrite IH by lia.
    f_equal. f_equal. lia.
Qed.

Lemma read_loop_whole (bytes : string) :
  read_loop (String.length bytes) (8 * 1024) 0 bytes
  = Some (match bytes with
          | EmptyString => None
          | _ => Some (c_str bytes)
          end,
          (8192 * (retries bytes + 1)
           + 512 * retries bytes * (retries bytes + 1))%Z).
Proof.
  destruct (retries_spec bytes) as (Hr & _ & _).
  change (8 * 1024)%Z with (8192 + 1024 * 0)%Z.
  rewrite read_loop_rounds by lia. f_equal. f_equal. lia.
Qed.

Lemma with_file_contents_read {A : Type} (sys : system) (errno : Z)
    (fname bytes : string) (fn : string -> A) (err : Z -> A) :
  file sys fname = inr bytes ->
  with_file_contents sys errno fname fn err
  = match bytes with
    | EmptyString => err errno
    | _ => fn (c_str bytes)
    end.
Proof.
  intros Hf. unfold with_file_contents. rewrite Hf, read_loop_whole.
  destruct bytes; reflexivity.
Qed.

(** The sign and digits that the scan of a numeric field converts. *)
Lemma scan_number_sign_digits (f s : string) :
  is_number f = true -> head_is isdigit s = false ->
  scan_number (f ++ s) = Some (sign_digits f, s).
Proof.
  intros Hf Hs.
  destruct (is_digits f) eqn:Hd.
  - rewrite scan_number_digits by assumption.
    destruct f as [|c f]; [discriminate Hd|].
    cbn in Hd. apply Bool.andb_true_iff in Hd as [Hc _].
    destruct (isdigit_cases c Hc) as (_ & Hminus & _).
    unfold sign_digits.
    destruct c as [[] [] [] [] [] [] [] []];
      try reflexivity; exfalso; congruence.
  - destruct f as [|c f]; [discriminate Hf|].
    assert (Hc : c = "-"%char /\ is_digits f = true).
    { destruct c as [[] [] [] [] [] [] [] []]; cbn in Hf, Hd;
        try congruence; now split. }
    destruct Hc as [-> Hf'].
    unfold scan_number. rewrite skip_space_head by reflexivity.
    cbn [append sign_digits].
    destruct (is_digits_all f Hf') as [Hall Hne].
    rewrite (span_all isdigit f s Hall Hs).
    destruct f; [congruence | reflexivity].
Qed.

(** A numeric conversion over one field: [errno] becomes [ERANGE] when the
    field is out of range. *)
Lemma scan_errno_number (ds : list directive) (suppress : bool) (cv : conv)
    (f s : string) (errno : Z) :
  cv = conv_d \/ cv = conv_u \/ cv = conv_llu ->
  is_number f = true -> head_is isdigit s = false ->
  scan_errno (d_conv suppress cv :: ds) (f ++ s) errno
  = scan_errno ds s (if field_range_error cv f then ERANGE else errno).
Proof.
  intros Hcv Hf Hs. cbn [scan_errno]. unfold field_range_error.
  destruct Hcv as [-> | [-> | ->]]; cbn [convert conv_range_error];
    rewrite (scan_number_sign_digits f s Hf Hs);
    destruct (sign_digits f); reflexivity.
Qed.





(** What the probe makes of the values scanned, and of [errno]. *)
Lemma start_time_of_scan (sys : system) (p : Z) (bytes : string) :
  file sys (stat_path p) = inr bytes -> bytes <> "" ->
  start_time_of sys p
  = let errno := sscanf_errno (c_str bytes) stat_format 0 in
    match sscanf (c_str bytes) stat_format with
    | [arg_char state; arg_int start_time] =>
        if zombie_or_dead state then nullopt errno
        else if (SC_CLK_TCK sys =? -1)%Z then nullopt errno
        else
          let hz := uint64 (SC_CLK_TCK sys) in
          {| probe_time :=
               Some {| tv_sec :=
                         time_t (time_t (start_time / hz) + boot_time sys);
                       tv_usec :=
                         suseconds_t (uint64 ((start_time mod hz)
                                              * (uint64 1000000 / hz))) |};
             probe_errno := errno |}
    | _ => nullopt errno
    end.
Proof.
  intros Hf Hne. unfold start_time_of.
  rewrite (with_file_contents_read sys _ _ bytes) by exact Hf.
  destruct bytes; [congruence | reflexivity].
Qed.

(** A process whose scanned state is Zombie or Dead has no start time. *)
Lemma start_time_of_zombie_or_dead (sys : system) (p : Z) (bytes : string)
    (state : ascii) (start : Z) :
  file sys (stat_path p) = inr bytes ->
  sscanf (c_str bytes) stat_format = [arg_char state; arg_int start] ->
  zombie_or_dead state = true ->
  start_time_of sys p = nullopt (sscanf_errno (c_str bytes) stat_format 0).
Proof.
  intros Hf Hscan Hz.
  rewrite (start_time_of_scan sys p bytes Hf)
    by (intros ->; discriminate Hscan).
  cbv zeta. now rewrite Hscan, Hz.
Qed.


End LinuxProbe.

(** ** Instances on sample systems *)

Section Instances.

Import ProcessId.
Local Open Scope string_scope.

Abbreviation try_lock5 :=
  (ProcessIdLock.try_lock uint64_t Sample.strerror Sample.start_time_of 5
     false).
Abbreviation unlock5 :=
  (ProcessIdLock.unlock uint64_t Sample.strerror Sample.start_time_of 5
     false).
Abbreviation current5 :=
  (current uint64_t Sample.strerror Sample.start_time_of 5).

(** C1 as the specification words it fails: process 7 holds the lock, the
    probe of pid 7 fails, and yet [try_lock] by process 5 returns true and
    the cell holds the caller's identifier, not the holder's. *)
Lemma probe_failure_counterexample :
  probe_time (Sample.start_time_of (pid uint64_t Sample.holder)) = None
  /\ try_lock5 (Atomic.quiet Sample.holder)
     = (Ok true, Atomic.quiet Sample.me)
  /\ try_lock5 (Atomic.quiet Sample.holder)
     <> (Ok false, Atomic.quiet Sample.holder).
Proof.
  split; [reflexivity|]. split; [reflexivity|].
  intros H. vm_compute in H. discriminate H.
Qed.

Lemma probe_failure_reclaims_witness :
  current5 = Ok Sample.me
  /\ Sample.holder <> null
  /\ Sample.holder <> Sample.me
  /\ probe_time (Sample.start_time_of (pid uint64_t Sample.holder)) = None
  /\ try_lock5 (Atomic.quiet Sample.holder)
     = (Ok true, Atomic.quiet Sample.me).
Proof.
  assert (H1 : current5 = Ok Sample.me) by reflexivity.
  assert (H2 : Sample.holder <> null)
    by (intros H; vm_compute in H; discriminate H).
  assert (H3 : Sample.holder <> Sample.me)
    by (intros H; vm_compute in H; discriminate H).
  assert (H4 : probe_time (Sample.start_time_of (pid uint64_t Sample.holder))
               = None) by reflexivity.
  refine (conj H1 (conj H2 (conj H3 (conj H4 _)))).
  exact (probe_failure_reclaims uint64_t Sample.strerror Sample.start_time_of
           5 false Sample.me Sample.holder H1 H2 H3 H4).
Defined.

(** Process 7 left its identifier in the lock and is gone; while process
    5 probes it a third process takes the lock for itself (the cell is
    null when it comes, since process 5 has just released it), so the
    attempt of process 5 fails.  With nobody else at the lock it
    succeeds. *)
Lemma try_lock_orphan_detection_witness :
  current5 = Ok Sample.me
  /\ Sample.holder <> null
  /\ Sample.holder <> Sample.me
  /\ try_lock5 (Atomic.quiet Sample.holder)
     = (Ok true, Atomic.quiet Sample.me)
  /\ try_lock5 (Atomic.mk Sample.holder [None; None; Some Sample.other])
     = (Ok false, Atomic.quiet Sample.other).
Proof.
  assert (H1 : current5 = Ok Sample.me) by reflexivity.
  assert (H2 : Sample.holder <> null)
    by (intros H; vm_compute in H; discriminate H).
  assert (H3 : Sample.holder <> Sample.me)
    by (intros H; vm_compute in H; discriminate H).
  refine (conj H1 (conj H2 (conj H3 (conj _ _)))).
  - exact (proj1 (try_lock_orphan_detection uint64_t Sample.strerror
                    Sample.start_time_of 5 false Sample.me Sample.holder
                    (Atomic.quiet Sample.holder) H1 eq_refl H2 H3)
                 (or_introl eq_refl)).
  - exact (proj1 (try_lock_orphan_detection uint64_t Sample.strerror
                    Sample.start_time_of 5 false Sample.me Sample.holder
                    (Atomic.mk Sample.holder [None; None; Some Sample.other])
                    H1 eq_refl H2 H3)
                 (or_introl eq_refl)).
Defined.

Lemma single_process_try_lock_unlock_witness :
  current5 = Ok Sample.me
  /\ Sample.me <> null
  /\ try_lock5 (Atomic.quiet null) = (Ok true, Atomic.quiet Sample.me)
  /\ try_lock5 (Atomic.quiet Sample.me) = (Ok false, Atomic.quiet Sample.me)
  /\ unlock5 (Atomic.quiet Sample.me) = (Ok tt, Atomic.quiet null).
Proof.
  assert (H1 : current5 = Ok Sample.me) by reflexivity.
  assert (H2 : Sample.me <> null)
    by (intros H; vm_compute in H; discriminate H).
  destruct (single_process_try_lock_unlock uint64_t Sample.strerror
              Sample.start_time_of 5 false Sample.me H1 H2)
    as (E1 & E2 & E3 & _).
  exact (conj H1 (conj H2 (conj E1 (conj E2 E3)))).
Defined.

Lemma unlock_not_owner_witness :
  current5 = Ok Sample.me
  /\ Atomic.value_ (Atomic.arrive (Atomic.quiet Sample.holder)) <> Sample.me
  /\ unlock5 (Atomic.quiet Sample.holder)
     = (AssertFail, Atomic.quiet Sample.holder).
Proof.
  assert (H1 : current5 = Ok Sample.me) by reflexivity.
  assert (H2 : Atomic.value_ (Atomic.arrive (Atomic.quiet Sample.holder))
               <> Sample.me)
    by (intros H; vm_compute in H; discriminate H).
  refine (conj H1 (conj H2 _)).
  exact (proj1 (unlock_not_owner uint64_t Sample.strerror
                  Sample.start_time_of 5 false Sample.me
                  (Atomic.quiet Sample.holder) H1 H2)).
Defined.

Lemma packed_roundtrip_witness :
  is_pid_t 4242
  /\ (0 <= 4242 < 2 ^ shift uint128_t)%Z
  /\ of_pid_start_time uint128_t
       (pid uint128_t (of_pid_start_time uint128_t 4242 Sample.tv))
       (start_time uint128_t (of_pid_start_time uint128_t 4242 Sample.tv))
     = of_pid_start_time uint128_t 4242 Sample.tv
  /\ pid uint128_t (of_pid_start_time uint128_t 4242 Sample.tv) = 4242%Z.
Proof.
  assert (H1 : is_pid_t 4242) by (unfold is_pid_t; lia).
  assert (H2 : (0 <= 4242 < 2 ^ shift uint128_t)%Z)
    by (split; [discriminate | reflexivity]).
  destruct (packed_roundtrip uint128_t 4242 Sample.tv H1 H2)
    as (E1 & _ & E2).
  exact (conj H1 (conj H2 (conj E1 E2))).
Defined.

Lemma packed_encoding_witness :
  is_pid_t 4242 /\ (0 <= 4242)%Z
  /\ (0 <= tv_sec Sample.tv * 1000000 + tv_usec Sample.tv < 2 ^ 64)%Z
  /\ high_half uint128_t
       (value_ (of_pid_start_time uint128_t 4242 Sample.tv)) = 4242%Z
  /\ low_half uint128_t
       (value_ (of_pid_start_time uint128_t 4242 Sample.tv))
     = (tv_sec Sample.tv * 1000000 + tv_usec Sample.tv)%Z.
Proof.
  assert (H1 : is_pid_t 4242) by (unfold is_pid_t; lia).
  assert (H2 : (0 <= 4242)%Z) by discriminate.
  assert (H3 : (0 <= tv_sec Sample.tv * 1000000 + tv_usec Sample.tv
                < 2 ^ 64)%Z) by (split; [discriminate | reflexivity]).
  destruct (packed_encoding uint128_t 4242 Sample.tv)
    as (_ & _ & Ehigh & _ & _ & Elow).
  exact (conj H1 (conj H2 (conj H3 (conj (Ehigh H1 H2) (Elow H3))))).
Defined.

Lemma packed_never_null_witness :
  is_pid_t 1 /\ 1%Z <> 0%Z
  /\ of_pid_start_time uint64_t 1
       {| tv_sec := epoch; tv_usec := 0 |} <> null.
Proof.
  assert (H1 : is_pid_t 1) by (unfold is_pid_t; lia).
  assert (H2 : 1%Z <> 0%Z) by discriminate.
  refine (conj H1 (conj H2 _)).
  exact (proj1 (packed_never_null uint64_t 1
                  {| tv_sec := epoch; tv_usec := 0 |} H1 H2)).
Defined.



End Instances.

(** * Further properties of the code *)

(** ** Atomic: the orders each operation accepts *)

Section AtomicOrders.

Variable T : Type.
Variable T_eqb : T -> T -> bool.

(** X1. With assertions on, [load(order)] aborts for [release] and
    [acq_rel]; for the four other orders it returns the value found and
    writes nothing.  With [NDEBUG] it returns the value for every order. *)
Theorem load_orders (fundamental : bool) (order : memory_order)
    (a : Atomic.t T) :
  Atomic.load T fundamental false order a
  = match order with
    | memory_order_release | memory_order_acq_rel => (AssertFail, a)
    | _ => (Ok (Atomic.value_ (Atomic.arrive a)), Atomic.arrive a)
    end
  /\ Atomic.load T fundamental true order a
     = (Ok (Atomic.value_ (Atomic.arrive a)), Atomic.arrive a).
Proof. destruct fundamental, order; split; reflexivity. Qed.

(** X2. With assertions on, [exchange(desired, order)] aborts for
    [consume] and for no other order; otherwise it returns the value found
    and leaves [desired] in the object. *)
Theorem exchange_orders (fundamental : bool) (desired : T)
    (order : memory_order) (a : Atomic.t T) :
  Atomic.exchange T fundamental false desired order a
  = match order with
    | memory_order_consume => (AssertFail, a)
    | _ => (Ok (Atomic.value_ (Atomic.arrive a)),
            Atomic.mk desired (Atomic.foreign (Atomic.arrive a)))
    end.
Proof. destruct fundamental, order; reflexivity. Qed.

(** X3. The two-order [compare_exchange_strong(expected, desired, success,
    fail)], assertions on: it aborts, writing nothing, unless [fail] is
    [relaxed], [consume], [acquire] or [seq_cst] and is not above [success]
    in the numbering of the orders; so [fail = relaxed] goes with every
    [success], [fail = consume] with all but [relaxed], [fail = acquire]
    with [acquire], [release], [acq_rel], [seq_cst], and [fail = seq_cst]
    with [seq_cst] only.  When accepted it writes [desired] if the object
    holds [expected], and else reports the value found. *)
Theorem compare_exchange_orders (fundamental : bool) (expected desired : T)
    (success fail : memory_order) (a : Atomic.t T) :
  Atomic.compare_exchange_strong2 T T_eqb fundamental false
    expected desired success fail a
  = if match fail, success with
       | memory_order_relaxed, _ => true
       | memory_order_consume, memory_order_relaxed => false
       | memory_order_consume, _ => true
       | memory_order_acquire, memory_order_relaxed => false
       | memory_order_acquire, memory_order_consume => false
       | memory_order_acquire, _ => true
       | memory_order_seq_cst, memory_order_seq_cst => true
       | _, _ => false
       end
    then
      let found := Atomic.arrive a in
      if T_eqb (Atomic.value_ found) expected
      then (Ok (true, expected), Atomic.mk desired (Atomic.foreign found))
      else (Ok (false, Atomic.value_ found), found)
    else (AssertFail, a).
Proof. destruct fundamental, success, fail; reflexivity. Qed.

(** X4. The one-order [compare_exchange_strong(expected, desired, order)]
    uses [order] for failure too: with assertions on it aborts for
    [release] and [acq_rel], and compares and exchanges for the other
    four. *)
Theorem compare_exchange_one_order (fundamental : bool)
    (expected desired : T) (order : memory_order) (a : Atomic.t T) :
  Atomic.compare_exchange_strong T T_eqb fundamental false
    expected desired order a
  = match order with
    | memory_order_release | memory_order_acq_rel => (AssertFail, a)
    | _ =>
        let found := Atomic.arrive a in
        if T_eqb (Atomic.value_ found) expected
        then (Ok (true, expected), Atomic.mk desired (Atomic.foreign found))
        else (Ok (false, Atomic.value_ found), found)
    end.
Proof. destruct fundamental, order; reflexivity. Qed.

End AtomicOrders.

(** ** Atomic: arithmetic and bitwise operations on integers *)

Section AtomicIntegral.

Import Atomic.

Variable ty : integral.
Hypothesis bits_pos : 0 < int_bits ty.

Lemma int_conv_range (z : Z) : int_range ty (int_conv ty z).
Proof.
  unfold int_range, int_conv, to_signed, to_unsigned.
  assert (Hm : 0 < 2 ^ int_bits ty) by (apply Z.pow_pos_nonneg; lia).
  assert (Hh : 2 ^ int_bits ty = 2 * 2 ^ (int_bits ty - 1)).
  { rewrite <- Z.pow_succ_r by lia. f_equal. lia. }
  destruct (int_signed ty).
  - pose proof (Z.mod_pos_bound (z + 2 ^ (int_bits ty - 1))
                  (2 ^ int_bits ty) Hm). lia.
  - apply Z.mod_pos_bound. exact Hm.
Qed.

Lemma int_conv_idem (z : Z) : int_range ty z -> int_conv ty z = z.
Proof.
  unfold int_range, int_conv. destruct (int_signed ty); intros H.
  - apply to_signed_small; [exact H | exact bits_pos].
  - apply to_unsigned_small; exact H.
Qed.

(** Converting an intermediate result changes nothing in the end. *)
Lemma int_conv_add (x y : Z) :
  int_conv ty (int_conv ty x + y) = int_conv ty (x + y).
Proof.
  unfold int_conv, to_signed, to_unsigned.
  destruct (int_signed ty).
  - f_equal.
    replace ((x + 2 ^ (int_bits ty - 1)) mod 2 ^ int_bits ty
             - 2 ^ (int_bits ty - 1) + y + 2 ^ (int_bits ty - 1))
      with ((x + 2 ^ (int_bits ty - 1)) mod 2 ^ int_bits ty + y) by lia.
    rewrite Zplus_mod_idemp_l. f_equal. lia.
  - apply Zplus_mod_idemp_l.
Qed.

(** X5. [fetch_add] and [fetch_sub] take every order without a check, in
    either build.  On an object holding [v] that nobody else writes,
    [fetch_add(arg)] returns [v], [fetch_sub(arg)] then returns the sum,
    wrapped around in the type, and the object holds [v] again, also when
    the sum wrapped. *)
Theorem fetch_add_then_fetch_sub (v arg : Z) (o1 o2 : memory_order) :
  int_range ty v ->
  bind (fetch_add ty arg o1) (fun old =>
  bind (fetch_sub ty arg o2) (fun mid =>
  ret (old, mid))) (quiet v)
  = (Ok (v, int_conv ty (v + arg)), quiet v).
Proof.
  intros Hv.
  cbv [bind fetch_add fetch_sub __atomic_fetch_add __atomic_fetch_sub rmw
       ret quiet arrive foreign value_].
  do 2 f_equal.
  replace (int_conv ty (v + arg) - arg)
    with (int_conv ty (v + arg) + - arg) by lia.
  rewrite int_conv_add.
  replace (v + arg + - arg) with v by lia.
  now apply int_conv_idem.
Qed.

(** X6. What the shortcuts return, on an object holding [v] that nobody
    else writes: [+=], [-=], [++x] and [--x] return the value a [load()]
    right after finds in the object; [x++] and [x--] return [v], the value
    before. *)
Theorem shortcut_results (NDEBUG : bool) (v arg : Z) :
  let then_load (op : M Z Z) :=
    bind op (fun r =>
    bind (load Z true NDEBUG memory_order_seq_cst) (fun now =>
    ret (r, now))) (quiet v) in
  sum_defined ty (v + arg) -> sum_defined ty (v - arg) ->
  sum_defined ty (v + 1) -> sum_defined ty (v - 1) ->
  then_load (add_assign ty arg)
  = (Ok (int_conv ty (v + arg), int_conv ty (v + arg)),
     quiet (int_conv ty (v + arg)))
  /\ then_load (sub_assign ty arg)
     = (Ok (int_conv ty (v - arg), int_conv ty (v - arg)),
        quiet (int_conv ty (v - arg)))
  /\ then_load (pre_increment ty)
     = (Ok (int_conv ty (v + 1), int_conv ty (v + 1)),
        quiet (int_conv ty (v + 1)))
  /\ then_load (post_increment ty)
     = (Ok (v, int_conv ty (v + 1)), quiet (int_conv ty (v + 1)))
  /\ then_load (pre_decrement ty)
     = (Ok (int_conv ty (v - 1), int_conv ty (v - 1)),
        quiet (int_conv ty (v - 1)))
  /\ then_load (post_decrement ty)
     = (Ok (v, int_conv ty (v - 1)), quiet (int_conv ty (v - 1))).
Proof.
  intros then_load _ _ _ _. subst then_load.
  destruct NDEBUG; repeat split; reflexivity.
Qed.

(** Bitwise operations stay within the type. *)
Lemma shiftr_sign (x k : Z) :
  0 <= k ->
  (- 2 ^ k <= x < 2 ^ k <-> Z.shiftr x k = 0 \/ Z.shiftr x k = -1).
Proof.
  intros Hk. rewrite Z.shiftr_div_pow2 by exact Hk.
  assert (Hm : 0 < 2 ^ k) by (apply Z.pow_pos_nonneg; lia).
  pose proof (Z.div_mod x (2 ^ k) ltac:(lia)) as Hd.
  pose proof (Z.mod_pos_bound x (2 ^ k) Hm) as Hr.
  split.
  - intros H. assert (-1 <= x / 2 ^ k <= 0) by nia. lia.
  - intros [H | H]; rewrite H in Hd; lia.
Qed.

Lemma bitwise_range (op : Z -> Z -> Z) (a b : Z) :
  (forall x y n, 0 <= n ->
     Z.shiftr (op x y) n = op (Z.shiftr x n) (Z.shiftr y n)) ->
  (forall x y n, 0 <= n ->
     Z.land (op x y) (Z.ones n)
     = op (Z.land x (Z.ones n)) (Z.land y (Z.ones n))) ->
  op 0 0 = 0 -> (op 0 (-1) = 0 \/ op 0 (-1) = -1) ->
  (op (-1) 0 = 0 \/ op (-1) 0 = -1) -> (op (-1) (-1) = 0 \/ op (-1) (-1) = -1) ->
  int_range ty a -> int_range ty b -> int_range ty (op a b).
Proof.
  intros Hshift Hland H00 H01 H10 H11. unfold int_range.
  destruct (int_signed ty); intros Ha Hb.
  - apply shiftr_sign in Ha; [|lia]. apply shiftr_sign in Hb; [|lia].
    apply shiftr_sign; [lia|]. rewrite Hshift by lia.
    destruct Ha as [-> | ->], Hb as [-> | ->]; auto.
  - assert (Hm : 0 < 2 ^ int_bits ty) by (apply Z.pow_pos_nonneg; lia).
    rewrite <- (Z.mod_small a (2 ^ int_bits ty)) by exact Ha.
    rewrite <- (Z.mod_small b (2 ^ int_bits ty)) by exact Hb.
    rewrite <- !Z.land_ones by lia. rewrite <- Hland by lia.
    rewrite Z.land_ones by lia. apply Z.mod_pos_bound. exact Hm.
Qed.

Lemma land_range (a b : Z) :
  int_range ty a -> int_range ty b -> int_range ty (Z.land a b).
Proof.
  apply bitwise_range; auto.
  - intros. apply Z.shiftr_land.
  - intros x y n _. apply Z.bits_inj'. intros i _.
    rewrite !Z.land_spec.
    destruct (Z.testbit x i), (Z.testbit y i), (Z.testbit (Z.ones n) i);
      reflexivity.
Qed.

Lemma lor_range (a b : Z) :
  int_range ty a -> int_range ty b -> int_range ty (Z.lor a b).
Proof.
  apply bitwise_range; auto.
  - intros. apply Z.shiftr_lor.
  - intros. apply Z.land_lor_distr_l.
Qed.

Lemma lxor_range (a b : Z) :
  int_range ty a -> int_range ty b -> int_range ty (Z.lxor a b).
Proof.
  apply bitwise_range; auto.
  - intros. apply Z.shiftr_lxor.
  - intros x y n _. apply Z.bits_inj'. intros i _.
    rewrite !Z.land_spec, !Z.lxor_spec, !Z.land_spec.
    destruct (Z.testbit x i), (Z.testbit y i), (Z.testbit (Z.ones n) i);
      reflexivity.
Qed.

(** X7. Bitwise operations on an object holding [v] that nobody else
    writes: [&=], [|=] and [^=] return the value they leave in the object,
    which is the bitwise combination itself (it stays in the type); and
    [^=] with the same argument twice gives [v] back. *)
Theorem bitwise_results (v arg : Z) :
  int_range ty v -> int_range ty arg ->
  and_assign ty arg (quiet v) = (Ok (Z.land v arg), quiet (Z.land v arg))
  /\ or_assign ty arg (quiet v) = (Ok (Z.lor v arg), quiet (Z.lor v arg))
  /\ xor_assign ty arg (quiet v) = (Ok (Z.lxor v arg), quiet (Z.lxor v arg))
  /\ bind (xor_assign ty arg) (fun r1 =>
     bind (xor_assign ty arg) (fun r2 =>
     ret (r1, r2))) (quiet v)
     = (Ok (Z.lxor v arg, v), quiet v).
Proof.
  intros Hv Harg.
  pose proof (int_conv_idem _ (land_range v arg Hv Harg)) as Eand.
  pose proof (int_conv_idem _ (lor_range v arg Hv Harg)) as Eor.
  pose proof (int_conv_idem _ (lxor_range v arg Hv Harg)) as Exor.
  assert (Eback : Z.lxor (Z.lxor v arg) arg = v)
    by (rewrite Z.lxor_assoc, Z.lxor_nilpotent; apply Z.lxor_0_r).
  cbv [bind and_assign or_assign xor_assign fetch_and fetch_or fetch_xor
       __atomic_fetch_and __atomic_fetch_or __atomic_fetch_xor rmw ret
       quiet arrive foreign value_].
  rewrite Eand, Eor, Exor, Eback, (int_conv_idem v Hv).
  repeat split.
Qed.

End AtomicIntegral.

(** ** Atomic: arithmetic on pointers *)

Section AtomicPointer.

Import Atomic.

(** X8. For a pointer to objects of [size] bytes, [fetch_add(arg)] (and so
    [+=] and [++]) moves the stored address by [arg] bytes, while the value
    [+=] returns is the old address moved by [arg] objects, both as
    addresses of 64 bits: on an object holding [p] that nobody else writes,
    [x += arg] returns [p + size * arg] and leaves [p + arg], each modulo
    2^64.  The two agree exactly when [(size - 1) * arg] is a multiple of
    2^64; when neither wraps around, that is when [size = 1] or
    [arg = 0]. *)
Theorem pointer_add_assign (size p arg : Z) :
  0 <= p < 2 ^ 64 ->
  add_assign_ptr size arg (quiet p)
  = (Ok (uint64 (p + size * arg)), quiet (uint64 (p + arg)))
  /\ (uint64 (p + size * arg) = uint64 (p + arg)
      <-> ((size - 1) * arg) mod 2 ^ 64 = 0)
  /\ (0 <= p + arg < 2 ^ 64 -> 0 <= p + size * arg < 2 ^ 64 ->
      add_assign_ptr size arg (quiet p)
      = (Ok (p + size * arg), quiet (p + arg))
      /\ (p + size * arg = p + arg <-> size = 1 \/ arg = 0)).
Proof.
  intros Hp.
  assert (E : add_assign_ptr size arg (quiet p)
              = (Ok (uint64 (p + size * arg)), quiet (uint64 (p + arg))))
    by reflexivity.
  split; [exact E|]. split.
  - unfold uint64, to_unsigned. rewrite Z.cong_iff_0.
    replace (p + size * arg - (p + arg)) with ((size - 1) * arg) by lia.
    reflexivity.
  - intros H1 H2. split.
    + rewrite E. unfold uint64. now rewrite !to_unsigned_small.
    + split; [nia | intros [-> | ->]; lia].
Qed.

End AtomicPointer.

(** ** ProcessId: what the packed value keeps of the start time *)

Section Decoding.

Import ProcessId.

Lemma start_time_64 (p : Z) (tv : timeval) :
  start_time uint64_t (of_pid_start_time uint64_t p tv)
  = {| tv_sec := tv_sec tv mod 2 ^ 32; tv_usec := 0 |}.
Proof.
  unfold start_time, of_pid_start_time. cbn [value_].
  change (uint32 (packed uint64_t p tv))
    with (low_half uint64_t (packed uint64_t p tv)).
  rewrite low_half_packed. cbn [low_of].
  assert (E : uint32 (epoch + uint32 (tv_sec tv - epoch))
              = tv_sec tv mod 2 ^ 32).
  { unfold uint32, to_unsigned. rewrite Zplus_mod_idemp_r. f_equal. lia. }
  rewrite E.
  pose proof (Z.mod_pos_bound (tv_sec tv) (2 ^ 32) ltac:(lia)) as Hb.
  unfold time_t. rewrite to_signed_small; [reflexivity | | lia].
  change (2 ^ (64 - 1)) with (2 ^ 63). lia.
Qed.

Lemma micros_split (tv : timeval) :
  normalized tv ->
  micros tv / 1000000 = tv_sec tv /\ micros tv mod 1000000 = tv_usec tv.
Proof.
  intros [Hs Hu]. unfold micros. split.
  - symmetry. apply Z.div_unique with (r := tv_usec tv); lia.
  - symmetry. apply Z.mod_unique with (q := tv_sec tv); lia.
Qed.

Lemma start_time_128 (p : Z) (tv : timeval) :
  normalized tv -> micros tv < 2 ^ 64 ->
  start_time uint128_t (of_pid_start_time uint128_t p tv) = tv.
Proof.
  intros Hn Hr. pose proof Hn as [Hs Hu].
  destruct (micros_split tv Hn) as [Hq Hm].
  unfold start_time, of_pid_start_time. cbn [value_].
  change (uint64 (packed uint128_t p tv))
    with (low_half uint128_t (packed uint128_t p tv)).
  rewrite low_half_in_range by (fold (micros tv); unfold micros in *; lia).
  fold (micros tv). rewrite Hq, Hm.
  assert (Hsec : tv_sec tv < 2 ^ 63).
  { unfold micros in Hr. change (2 ^ 64) with 18446744073709551616 in Hr.
    change (2 ^ 63) with 9223372036854775808. lia. }
  unfold time_t, suseconds_t.
  rewrite !to_signed_small
    by (change (2 ^ (64 - 1)) with 9223372036854775808;
        change (2 ^ 63) with 9223372036854775808 in Hsec; lia).
  destruct tv; reflexivity.
Qed.

(** X9. With the 64-bit value, [start_time()] of [ProcessId(pid, tv)] has
    the seconds of [tv] modulo 2^32 and no microseconds: the epoch added
    back cancels the one subtracted, so the seconds come back as they were
    exactly when they lie in [0, 2^32), that is, before 2106-02-07. *)
Theorem start_time_seconds_64 (p : Z) (tv : timeval) :
  start_time uint64_t (of_pid_start_time uint64_t p tv)
  = {| tv_sec := tv_sec tv mod 2 ^ 32; tv_usec := 0 |}
  /\ (tv_sec (start_time uint64_t (of_pid_start_time uint64_t p tv))
      = tv_sec tv
      <-> 0 <= tv_sec tv < 2 ^ 32).
Proof.
  rewrite start_time_64. cbn [tv_sec]. split; [reflexivity|].
  pose proof (Z.mod_pos_bound (tv_sec tv) (2 ^ 32) ltac:(lia)).
  split; [lia | apply Z.mod_small].
Qed.

(** X10. With the 128-bit value, [start_time()] of [ProcessId(pid, tv)] is
    [tv] itself, microseconds included, for every [tv] the system can give
    (seconds not negative, microseconds below one million, and the total in
    microseconds below 2^64). *)
Theorem start_time_exact_128 (p : Z) (tv : timeval) :
  normalized tv -> micros tv < 2 ^ 64 ->
  start_time uint128_t (of_pid_start_time uint128_t p tv) = tv.
Proof. apply start_time_128. Qed.

(** X11. With the 64-bit value two identifiers are equal exactly when the
    pids are equal and the start times agree in their seconds modulo 2^32:
    a pid reused within the same second gives the same identifier. *)
Theorem equal_iff_64 (p1 p2 : Z) (tv1 tv2 : timeval) :
  is_pid_t p1 -> is_pid_t p2 ->
  (of_pid_start_time uint64_t p1 tv1 = of_pid_start_time uint64_t p2 tv2
   <-> p1 = p2 /\ tv_sec tv1 mod 2 ^ 32 = tv_sec tv2 mod 2 ^ 32).
Proof.
  intros H1 H2. split.
  - intros E. split.
    + rewrite <- (pid_of_pid_start_time uint64_t p1 tv1 H1), E.
      now apply pid_of_pid_start_time.
    + apply (f_equal (start_time uint64_t)) in E.
      rewrite !start_time_64 in E. now injection E.
  - intros [-> E]. unfold of_pid_start_time. f_equal.
    rewrite !packed_halves. f_equal. cbn [low_of].
    unfold uint32, to_unsigned.
    rewrite <- (Zminus_mod_idemp_l (tv_sec tv1)), E, Zminus_mod_idemp_l.
    reflexivity.
Qed.

(** X12. With the 128-bit value two identifiers built from start times the
    system can give are equal exactly when the pids and the start times are
    equal: a pid reused by a process started at another microsecond gives
    another identifier. *)
Theorem equal_iff_128 (p1 p2 : Z) (tv1 tv2 : timeval) :
  is_pid_t p1 -> is_pid_t p2 ->
  normalized tv1 -> micros tv1 < 2 ^ 64 ->
  normalized tv2 -> micros tv2 < 2 ^ 64 ->
  (of_pid_start_time uint128_t p1 tv1 = of_pid_start_time uint128_t p2 tv2
   <-> p1 = p2 /\ tv1 = tv2).
Proof.
  intros H1 H2 Hn1 Hr1 Hn2 Hr2. split.
  - intros E. split.
    + rewrite <- (pid_of_pid_start_time uint128_t p1 tv1 H1), E.
      now apply pid_of_pid_start_time.
    + rewrite <- (start_time_128 p1 tv1 Hn1 Hr1), E.
      now apply start_time_128.
  - intros [-> ->]. reflexivity.
Qed.

Lemma lor_as_sum (h l s : Z) :
  0 <= s -> 0 <= l < 2 ^ s -> Z.lor (h * 2 ^ s) l = h * 2 ^ s + l.
Proof.
  intros Hs Hl.
  assert (Hm : 0 < 2 ^ s) by (apply Z.pow_pos_nonneg; lia).
  rewrite (Z.div_mod (Z.lor (h * 2 ^ s) l) (2 ^ s)) by lia.
  rewrite <- Z.shiftr_div_pow2 by exact Hs.
  rewrite high_of_lor, low_of_lor by assumption. lia.
Qed.

(** X13. The ordering of identifiers is that of (pid, start time): for
    pids that are not negative, the identifier of the smaller pid comes
    first whatever the start times, and with equal pids the order is that
    of the low halves, the packed start times. *)
Theorem compare_by_pid_then_start (T : ValueT) (p1 p2 : Z)
    (tv1 tv2 : timeval) :
  is_pid_t p1 -> is_pid_t p2 -> 0 <= p1 -> 0 <= p2 ->
  let a := of_pid_start_time T p1 tv1 in
  let b := of_pid_start_time T p2 tv2 in
  compare a b
  = match p1 ?= p2 with
    | Eq => low_half T (value_ a) ?= low_half T (value_ b)
    | c => c
    end.
Proof.
  intros H1 H2 Hp1 Hp2 a b. subst a b.
  unfold compare, of_pid_start_time. cbn [value_].
  rewrite !low_half_packed, !packed_halves.
  pose proof (shift_pos T) as Hs.
  pose proof (low_of_range T tv1) as Hl1.
  pose proof (low_of_range T tv2) as Hl2.
  rewrite !lor_as_sum by (assumption || lia).
  assert (Hw : 2 ^ 31 <= 2 ^ shift T).
  { apply Z.pow_le_mono_r; [lia|]. pose proof (shift_ge_32 T). lia. }
  rewrite !to_unsigned_small by (unfold is_pid_t in *; lia).
  destruct (Z.compare_spec p1 p2) as [-> | Hlt | Hgt].
  - destruct (Z.compare_spec (low_of T tv1) (low_of T tv2)) as [E | E | E].
    + apply Z.compare_eq_iff. lia.
    + apply Z.compare_lt_iff. lia.
    + apply Z.compare_gt_iff. lia.
  - apply Z.compare_lt_iff. nia.
  - apply Z.compare_gt_iff. nia.
Qed.

End Decoding.

(** ** ProcessIdLock: what try_lock guarantees, and the loop of lock *)

Section LockLoop.

Import ProcessId.

Variable Value : ValueT.
Variable strerror : Z -> string.
Variable start_time_of : Z -> probe.
Variable getpid : Z.
Variable NDEBUG : bool.

Abbreviation lock_t := (Atomic.t ProcessId.t).
Abbreviation exchange := (ProcessIdLock.exchange NDEBUG).
Abbreviation try_lock_impl :=
  (ProcessIdLock.try_lock_impl Value strerror start_time_of NDEBUG).
Abbreviation lock_attempts :=
  (ProcessIdLock.lock_attempts Value strerror start_time_of NDEBUG).
Abbreviation lock :=
  (ProcessIdLock.lock Value strerror start_time_of getpid NDEBUG).
Abbreviation unlock :=
  (ProcessIdLock.unlock Value strerror start_time_of getpid NDEBUG).
Abbreviation maybe := (ProcessId.maybe Value strerror start_time_of).
Abbreviation current :=
  (ProcessId.current Value strerror start_time_of getpid).

(** X14. Whatever the other processes do to the cell meanwhile,
    [try_lock_impl(me)] returns (no exception, no assertion, in either
    build), and when it returns true the cell holds [me] as it returns. *)
Theorem try_lock_impl_result (me : ProcessId.t) (lock0 : lock_t) :
  exists (b : bool) (lock' : lock_t),
    try_lock_impl me lock0 = (Ok b, lock')
    /\ (b = true -> Atomic.value_ lock' = me).
Proof.
  unfold ProcessIdLock.try_lock_impl, Atomic.bind, Atomic.lift, Atomic.ret.
  rewrite exchange_spec. cbv zeta.
  destruct (eqb (Atomic.value_ (Atomic.arrive lock0)) null).
  { eexists _, _. split; [reflexivity | reflexivity]. }
  destruct (eqb (Atomic.value_ (Atomic.arrive lock0)) me); cbn [negb].
  { eexists _, _. split; [reflexivity | discriminate]. }
  rewrite maybe_returns.
  set (found := Atomic.value_ (Atomic.arrive lock0)).
  destruct (match
               option_map (of_pid_start_time Value (pid Value found))
                 (probe_time (start_time_of (pid Value found)))
             with
             | Some p => negb (eqb found p)
             | None => true
             end).
  2: { eexists _, _. split; [reflexivity | discriminate]. }
  rewrite exchange_spec. cbv zeta.
  destruct (eqb (Atomic.value_ (Atomic.arrive (Atomic.arrive lock0))) found);
    rewrite exchange_spec; cbv zeta;
    match goal with
    | |- context [if eqb ?x null then _ else _] => destruct (eqb x null)
    end;
    eexists _, _; (split; [reflexivity | try reflexivity; discriminate]).
Qed.

Lemma lock_as (me : ProcessId.t) (fuel : nat) (lock0 : lock_t) :
  current = Ok me -> lock fuel lock0 = lock_attempts fuel me lock0.
Proof.
  intros Hc. unfold ProcessIdLock.lock, Atomic.bind, Atomic.lift.
  now rewrite Hc.
Qed.

Lemma lock_attempts_got (me : ProcessId.t) (fuel : nat)
    (lock0 lock1 : lock_t) :
  try_lock_impl me lock0 = (Ok true, lock1) ->
  lock_attempts (S fuel) me lock0 = (Ok (Some tt), lock1).
Proof.
  intros E. cbn [ProcessIdLock.lock_attempts]. unfold Atomic.bind.
  now rewrite E.
Qed.

Lemma lock_attempts_missed (me : ProcessId.t) (fuel : nat)
    (lock0 lock1 : lock_t) :
  try_lock_impl me lock0 = (Ok false, lock1) ->
  lock_attempts (S fuel) me lock0 = lock_attempts fuel me lock1.
Proof.
  intros E. cbn [ProcessIdLock.lock_attempts]. unfold Atomic.bind.
  now rewrite E.
Qed.

(** X15. [lock()] returns from its first attempt, with the caller's
    identifier in the cell, when the lock is free or when its holder is
    another process whose probe finds nothing (nobody else being at the
    lock). *)
Theorem lock_acquires_at_once (me h : ProcessId.t) (fuel : nat) :
  current = Ok me ->
  h = null
  \/ (h <> me /\ probe_time (start_time_of (pid Value h)) = None) ->
  lock (S fuel) (Atomic.quiet h) = (Ok (Some tt), Atomic.quiet me).
Proof.
  intros Hc Hh. rewrite (lock_as me) by exact Hc.
  apply lock_attempts_got.
  destruct (eqb h null) eqn:E.
  - apply id_eqb_eq in E. subst h. now apply try_lock_impl_free.
  - apply id_eqb_neq in E. destruct Hh as [-> | [Hme Hprobe]]; [congruence|].
    apply try_lock_impl_dead_quiet; [exact E | exact Hme |].
    left. now rewrite maybe_returns, Hprobe.
Qed.

(** X16. [lock()] never returns, and never writes the cell, while the
    cell holds the caller's own identifier (a second [lock()] by the
    holder), or the identifier of another process that the probe finds
    as recorded, and nobody changes the cell: however many attempts are
    looked at, the caller is still in the loop. *)
Theorem lock_spins (me h : ProcessId.t) (fuel : nat) :
  current = Ok me ->
  h <> null ->
  h = me \/ maybe (pid Value h) = Ok (Some h) ->
  lock fuel (Atomic.quiet h) = (Ok None, Atomic.quiet h).
Proof.
  intros Hc Hnull Hh. rewrite (lock_as me) by exact Hc.
  assert (Hmiss : try_lock_impl me (Atomic.quiet h)
                  = (Ok false, Atomic.quiet h)).
  { destruct (eqb h me) eqn:E.
    - apply id_eqb_eq in E. subst h. now apply try_lock_impl_own.
    - apply id_eqb_neq in E. destruct Hh as [-> | Hp]; [congruence|].
      now apply try_lock_impl_alive with (h := h). }
  induction fuel as [|fuel IH]; [reflexivity|].
  rewrite (lock_attempts_missed me fuel _ _ Hmiss). exact IH.
Qed.

(** X17. A caller waiting in [lock()] for a live holder [h] writes nothing
    while the cell holds [h], and takes the lock at its first attempt
    after the holder's release: if the cell is null when the caller
    arrives for attempt [n + 1], [lock()] returns from that attempt with
    the caller's identifier in the cell. *)
Theorem lock_after_release (me h : ProcessId.t) (n k : nat)
    (rest : list (option ProcessId.t)) :
  current = Ok me ->
  h <> null -> h <> me ->
  maybe (pid Value h) = Ok (Some h) ->
  lock (S (n + k))
    (Atomic.mk h (List.repeat None n ++ Some null :: rest))
  = (Ok (Some tt), Atomic.mk me rest).
Proof.
  intros Hc Hnull Hme Hp. rewrite (lock_as me) by exact Hc.
  induction n as [|n IH]; cbn [List.repeat app Nat.add].
  - apply lock_attempts_got. now rewrite try_lock_impl_free.
  - rewrite (lock_attempts_missed me (S (n + k)) _
               (Atomic.mk h (List.repeat None n ++ Some null :: rest))).
    + exact IH.
    + now apply try_lock_impl_alive with (h := h).
Qed.

End LockLoop.

(** ** ProcessId::current() across fork *)

Section CurrentFork.

Import ProcessId.

Variable Value : ValueT.
Variable strerror : Z -> string.
Variable start_time_of : Z -> probe.

Lemma run_handlers_ok (kid : ProcessId.t) (n : nat) :
  forall p : Current.process,
    of_pid Value strerror start_time_of (Current.getpid p) = Ok kid ->
    Current.run_handlers Value strerror start_time_of n p
    = Ok {| Current.getpid := Current.getpid p;
            Current.id := match n with O => Current.id p | S _ => kid end;
            Current.initialised := Current.initialised p;
            Current.handlers := Current.handlers p |}.
Proof.
  induction n as [|n IH]; intros p Hkid; cbn [Current.run_handlers].
  - destruct p; reflexivity.
  - rewrite Hkid, IH by exact Hkid. cbn. destruct n; reflexivity.
Qed.

(** X18. After a fork the child's [current()] is the child's own
    identifier, whether or not the parent had called [current()] before:
    the handler registered with [pthread_atfork] replaces the cached
    identifier in the child, and a child without a cached identifier
    computes its own at the first call.  The identifier carries the
    child's pid. *)
Theorem current_after_fork (parent : Current.process) (child : Z)
    (kid : ProcessId.t) :
  Current.reachable parent ->
  is_pid_t child ->
  of_pid Value strerror start_time_of child = Ok kid ->
  exists c : Current.process,
    Current.fork Value strerror start_time_of child parent = Ok c
    /\ fst (Current.current Value strerror start_time_of c) = Ok kid
    /\ pid Value kid = child.
Proof.
  intros Hreach Hchild Hkid.
  eexists. split; [|split].
  - unfold Current.fork. apply run_handlers_ok. exact Hkid.
  - unfold Current.current. cbn.
    destruct (Current.initialised parent) eqn:Hinit.
    + specialize (Hreach Hinit).
      destruct (Current.handlers parent); [inversion Hreach | reflexivity].
    + now rewrite Hkid.
  - unfold of_pid in Hkid.
    destruct (probe_time (start_time_of child)) as [tv|];
      cbn [value_from] in Hkid; [|discriminate Hkid].
    injection Hkid as <-.
    now apply (pid_of_pid_start_time Value child tv).
Qed.

(** X19. [current()] probes once: after a call that returned, every later
    call in the same process returns the same identifier without looking
    at the system again, whatever the system would now report; and the
    handler is registered by then. *)
Theorem current_is_cached (p p1 : Current.process) (me : ProcessId.t)
    (later : Z -> probe) :
  Current.reachable p ->
  Current.current Value strerror start_time_of p = (Ok me, p1) ->
  Current.current Value strerror later p1 = (Ok me, p1)
  /\ Current.reachable p1.
Proof.
  unfold Current.current, Current.reachable. intros Hreach E.
  destruct (Current.initialised p) eqn:Hinit.
  - injection E as <- <-. rewrite Hinit. split; [reflexivity | exact Hreach].
  - destruct (of_pid Value strerror start_time_of (Current.getpid p));
      try discriminate E.
    injection E as <- <-. cbn. split; [reflexivity | intros _; lia].
Qed.

End CurrentFork.

(** ** The Linux probe: files, running processes, the boot time *)

Section LinuxFiles.

Import ProcessId Linux.
Local Open Scope string_scope.

(** X20. [with_file_contents]: when [::open] or a [::read] fails, [err]
    finds the [errno] of that call; when nothing is read, [err] finds
    [errno] as it was on entry; otherwise [fn] receives the whole file as
    a C string, after one retry for every 1024 bytes from 8191 bytes on.
    The buffers of all rounds are taken from the stack and stay there
    until the return: with [r] retries they amount to
    [8192 * (r + 1) + 512 * r * (r + 1)] bytes, which grows with the square
    of the length of the file, and the result is this one as long as the
    stack holds them. *)
Theorem with_file_contents_outcome {A : Type} (sys : system) (errno : Z)
    (fname : string) (fn : string -> A) (err : Z -> A) :
  with_file_contents sys errno fname fn err
  = match file sys fname with
    | inl failed => err failed
    | inr EmptyString => err errno
    | inr bytes => fn (c_str bytes)
    end
  /\ forall bytes : string,
       file sys fname = inr bytes ->
       let n := Z.of_nat (String.length bytes) in
       let r := if (n <? 8191)%Z then 0%Z else ((n - 8191) / 1024 + 1)%Z in
       alloca_total bytes = (8192 * (r + 1) + 512 * r * (r + 1))%Z.
Proof.
  split.
  - destruct (file sys fname) as [e | bytes] eqn:Hf.
    + unfold with_file_contents. now rewrite Hf.
    + now apply with_file_contents_read.
  - intros bytes _ n r.
    unfold alloca_total. rewrite read_loop_whole. reflexivity.
Qed.

Lemma decimal_nonneg (ds : string) :
  forall acc : Z, (0 <= acc)%Z -> (0 <= decimal acc ds)%Z.
Proof.
  induction ds as [|c ds IH]; intros acc Hacc; cbn [decimal];
    [exact Hacc | apply IH; lia].
Qed.


(** What the probe makes of a scanned state and tick count. *)
Lemma start_time_of_scanned (sys : system) (p : Z) (bytes : string)
    (state : ascii) (t : Z) :
  file sys (stat_path p) = inr bytes ->
  sscanf (c_str bytes) stat_format = [arg_char state; arg_int t] ->
  zombie_or_dead state = false ->
  (0 <= t < 2 ^ 64)%Z ->
  (1 <= SC_CLK_TCK sys < 2 ^ 63)%Z ->
  (0 <= boot_time sys)%Z ->
  (t / SC_CLK_TCK sys + boot_time sys < 2 ^ 63)%Z ->
  start_time_of sys p
  = {| probe_time :=
         Some {| tv_sec := boot_time sys + t / SC_CLK_TCK sys;
                 tv_usec := (t mod SC_CLK_TCK sys)
                            * (1000000 / SC_CLK_TCK sys) |};
       probe_errno := sscanf_errno (c_str bytes) stat_format 0 |}
  /\ (0 <= (t mod SC_CLK_TCK sys) * (1000000 / SC_CLK_TCK sys)
      < 1000000)%Z.
Proof.
  intros Hf Hscan Hz Ht Hhz Hboot Hsum.
  set (hz := SC_CLK_TCK sys) in *.
  assert (Hq : (0 <= t / hz)%Z) by (apply Z.div_pos; lia).
  assert (Hr : (0 <= t mod hz < hz)%Z) by (apply Z.mod_pos_bound; lia).
  assert (Hk : (0 <= 1000000 / hz)%Z) by (apply Z.div_pos; lia).
  assert (Hkh : (hz * (1000000 / hz) <= 1000000)%Z)
    by (apply Z.mul_div_le; lia).
  assert (Hus : (0 <= (t mod hz) * (1000000 / hz) < 1000000)%Z) by nia.
  split; [|exact Hus].
  rewrite (start_time_of_scan sys p bytes Hf)
    by (intros ->; discriminate Hscan).
  cbv zeta. rewrite Hscan, Hz. fold hz.
  destruct (Z.eqb_spec hz (-1)); [lia|].
  change (2 ^ 63)%Z with 9223372036854775808%Z in *.
  change (2 ^ 64)%Z with 18446744073709551616%Z in *.
  assert (E1 : uint64 hz = hz)
    by (apply to_unsigned_small;
        change (2 ^ 64)%Z with 18446744073709551616%Z; lia).
  assert (E2 : uint64 1000000 = 1000000%Z) by reflexivity.
  rewrite E1, E2.
  assert (E3 : uint64 ((t mod hz) * (1000000 / hz))
               = ((t mod hz) * (1000000 / hz))%Z)
    by (apply to_unsigned_small;
        change (2 ^ 64)%Z with 18446744073709551616%Z; lia).
  rewrite E3.
  assert (S64 : forall z, (0 <= z < 9223372036854775808)%Z ->
                          to_signed 64 z = z)
    by (intros z Hz'; apply to_signed_small;
        [change (2 ^ (64 - 1))%Z with 9223372036854775808%Z; lia | lia]).
  unfold time_t, suseconds_t.
  rewrite (S64 (t / hz)%Z) by lia.
  rewrite (S64 (t / hz + boot_time sys)%Z) by lia.
  rewrite (S64 ((t mod hz) * (1000000 / hz))%Z) by lia.
  do 3 f_equal. lia.
Qed.


(** X22. The probe keeps the order of start times: of two running
    processes, the one with fewer ticks at its start is reported with a
    start time that is not later. *)
Theorem start_time_of_monotone (sys : system) (p1 p2 : Z)
    (bytes1 bytes2 : string) (state1 state2 : ascii) (t1 t2 : Z) :
  file sys (stat_path p1) = inr bytes1 ->
  file sys (stat_path p2) = inr bytes2 ->
  sscanf (c_str bytes1) stat_format = [arg_char state1; arg_int t1] ->
  sscanf (c_str bytes2) stat_format = [arg_char state2; arg_int t2] ->
  zombie_or_dead state1 = false -> zombie_or_dead state2 = false ->
  (0 <= t1 <= t2)%Z -> (t2 < 2 ^ 64)%Z ->
  (1 <= SC_CLK_TCK sys < 2 ^ 63)%Z ->
  (0 <= boot_time sys)%Z ->
  (t2 / SC_CLK_TCK sys + boot_time sys < 2 ^ 63)%Z ->
  exists tv1 tv2 : timeval,
    probe_time (start_time_of sys p1) = Some tv1
    /\ probe_time (start_time_of sys p2) = Some tv2
    /\ (micros tv1 <= micros tv2)%Z.
Proof.
  intros Hf1 Hf2 Hs1 Hs2 Hz1 Hz2 Ht Ht2 Hhz Hboot Hsum.
  set (hz := SC_CLK_TCK sys) in *.
  assert (Hdiv : (t1 / hz <= t2 / hz)%Z) by (apply Z.div_le_mono; lia).
  destruct (start_time_of_scanned sys p1 bytes1 state1 t1) as [E1 B1];
    try assumption; try (fold hz; lia).
  destruct (start_time_of_scanned sys p2 bytes2 state2 t2) as [E2 B2];
    try assumption; try (fold hz; lia).
  fold hz in E1, E2, B1, B2.
  rewrite E1, E2. eexists _, _. split; [reflexivity|].
  split; [reflexivity|].
  unfold micros. cbn [tv_sec tv_usec].
  assert (Hkh : (hz * (1000000 / hz) <= 1000000)%Z)
    by (apply Z.mul_div_le; lia).
  assert (Hk : (0 <= 1000000 / hz)%Z) by (apply Z.div_pos; lia).
  pose proof (Z.div_mod t1 hz ltac:(lia)) as D1.
  pose proof (Z.div_mod t2 hz ltac:(lia)) as D2.
  pose proof (Z.mod_pos_bound t1 hz ltac:(lia)) as M1.
  pose proof (Z.mod_pos_bound t2 hz ltac:(lia)) as M2.
  destruct (Z.eq_dec (t1 / hz) (t2 / hz)) as [Heq | Hne].
  - rewrite Heq in *. assert ((t1 mod hz <= t2 mod hz)%Z) by lia. nia.
  - assert ((t1 / hz + 1 <= t2 / hz)%Z) by lia. nia.
Qed.

End LinuxFiles.

Section LinuxNames.

Import ProcessId Linux.
Local Open Scope string_scope.

Variable Value : ValueT.
Variable strerror : Z -> string.

(** A character that starts no number stops [%d]. *)
Lemma scan_number_stops (c : ascii) (s : string) :
  isspace c = false -> isdigit c = false ->
  c <> "-"%char -> c <> "+"%char ->
  scan_number (String c s) = None.
Proof.
  intros Hsp Hd Hminus Hplus.
  destruct c as [[] [] [] [] [] [] [] []];
    try discriminate Hsp; try discriminate Hd;
    try (exfalso; congruence); reflexivity.
Qed.

(** The scan of a line whose [comm] ends in a closing parenthesis: the
    [%c] meant for the state reads that parenthesis, and the state stops
    the [%d] that follows. *)
Lemma sscanf_closing_paren (pid_s a : string) (state : ascii)
    (mid : list string) (starttime rest : string) :
  is_number pid_s = true ->
  all (fun c => negb (Ascii.eqb c ")")) a = true ->
  isspace state = false -> isdigit state = false ->
  state <> "-"%char -> state <> "+"%char ->
  sscanf (stat_line pid_s (a ++ ")") state mid starttime rest) stat_format
  = match a with
    | EmptyString => []
    | _ => [arg_char ")"]
    end.
Proof.
  intros Hpid Ha Hstate Hd Hminus Hplus.
  unfold sscanf.
  replace (parse_format stat_format) with
    (Some (d_conv true conv_d :: d_space :: d_char "("
           :: d_conv true (conv_not ")") :: d_char ")" :: d_space
           :: d_conv false conv_c :: d_space :: d_conv true conv_d
           :: flat_map (fun cv => [d_space; d_conv true cv])
                [conv_d; conv_d; conv_d; conv_d;
                 conv_u; conv_u; conv_u; conv_u; conv_u; conv_u; conv_u;
                 conv_d; conv_d; conv_d; conv_d; conv_d; conv_d]
           ++ [d_space; d_conv false conv_llu]))
    by (vm_compute; reflexivity).
  unfold stat_line.
  rewrite scan_number_skipped by (auto; reflexivity).
  cbn [scan append]. rewrite skip_space_blank by reflexivity.
  cbn [Ascii.eqb Bool.eqb]. cbn [convert].
  rewrite append_assoc. cbn [append].
  rewrite (span_all _ a _ Ha) by reflexivity.
  destruct a as [|c0 a]; [reflexivity|].
  cbn [Ascii.eqb Bool.eqb].
  rewrite skip_space_head by reflexivity.
  rewrite skip_space_blank by exact Hstate.
  now rewrite scan_number_stops.
Qed.

(** [errno] after the scan of such a line: only field 1 is converted. *)
Lemma sscanf_errno_closing_paren (pid_s a : string) (state : ascii)
    (mid : list string) (starttime rest : string) :
  is_number pid_s = true ->
  all (fun c => negb (Ascii.eqb c ")")) a = true ->
  isspace state = false -> isdigit state = false ->
  state <> "-"%char -> state <> "+"%char ->
  sscanf_errno (stat_line pid_s (a ++ ")") state mid starttime rest)
    stat_format 0
  = if field_range_error conv_d pid_s then ERANGE else 0%Z.
Proof.
  intros Hpid Ha Hstate Hd Hminus Hplus.
  unfold sscanf_errno.
  replace (parse_format stat_format) with
    (Some (d_conv true conv_d :: d_space :: d_char "("
           :: d_conv true (conv_not ")") :: d_char ")" :: d_space
           :: d_conv false conv_c :: d_space :: d_conv true conv_d
           :: flat_map (fun cv => [d_space; d_conv true cv])
                [conv_d; conv_d; conv_d; conv_d;
                 conv_u; conv_u; conv_u; conv_u; conv_u; conv_u; conv_u;
                 conv_d; conv_d; conv_d; conv_d; conv_d; conv_d]
           ++ [d_space; d_conv false conv_llu]))
    by (vm_compute; reflexivity).
  unfold stat_line. cbv beta iota.
  rewrite (scan_errno_number _ true conv_d pid_s) by (auto; reflexivity).
  cbn [scan_errno append]. rewrite skip_space_blank by reflexivity.
  cbn [Ascii.eqb Bool.eqb]. cbn [convert].
  rewrite append_assoc. cbn [append].
  rewrite (span_all _ a _ Ha) by reflexivity.
  destruct a as [|c0 a]; [reflexivity|].
  cbn [Ascii.eqb Bool.eqb conv_range_error].
  rewrite skip_space_head by reflexivity.
  rewrite skip_space_blank by exact Hstate.
  now rewrite scan_number_stops.
Qed.

(** X23. A running process whose name ends in a closing parenthesis is
    not found: the scan of its /proc/<pid>/stat assigns fewer than two
    values whatever the other fields hold, so the probe reports no start
    time and [maybe] returns the empty optional, as for a dead process;
    [errno] is left at zero, or at [ERANGE] when the pid of field 1 is out
    of range. *)
Theorem name_closing_paren_not_found (sys : system) (p : Z)
    (bytes pid_s a : string) (state : ascii) (mid : list string)
    (starttime rest : string) :
  file sys (stat_path p) = inr bytes ->
  c_str bytes = stat_line pid_s (a ++ ")") state mid starttime rest ->
  is_number pid_s = true ->
  all (fun c => negb (Ascii.eqb c ")")) a = true ->
  isspace state = false -> isdigit state = false ->
  state <> "-"%char -> state <> "+"%char ->
  start_time_of sys p
  = nullopt (if field_range_error conv_d pid_s then ERANGE else 0%Z)
  /\ maybe Value strerror (start_time_of sys) p = Ok None.
Proof.
  intros Hf Hline Hpid Ha Hstate Hd Hminus Hplus.
  assert (Hnone : start_time_of sys p
                  = nullopt (if field_range_error conv_d pid_s
                             then ERANGE else 0%Z)).
  { rewrite (start_time_of_scan sys p bytes Hf).
    - cbv zeta.
      rewrite Hline, sscanf_closing_paren, sscanf_errno_closing_paren
        by assumption.
      destruct a; reflexivity.
    - intros ->. destruct pid_s; discriminate. }
  split; [exact Hnone|].
  rewrite maybe_returns, Hnone. reflexivity.
Qed.

(** X24. When /proc/<pid>/stat cannot be opened, the [errno] of the
    failed [::open] is what the probe leaves behind: [maybe] returns the
    empty optional, and the message of the [runtime_error] thrown by
    [ProcessId(pid)] ends with [": "] and the [strerror] text of that
    [errno]. *)
Theorem open_failure_lookup (sys : system) (p errno : Z) :
  file sys (stat_path p) = inl errno -> errno <> 0%Z ->
  start_time_of sys p = nullopt errno
  /\ maybe Value strerror (start_time_of sys) p = Ok None
  /\ of_pid Value strerror (start_time_of sys) p
     = Throw (runtime_error
                ("can't get process start time: pid=" ++ show_int p
                 ++ ": " ++ strerror errno)).
Proof.
  intros Hf Hne.
  assert (Hnone : start_time_of sys p = nullopt errno).
  { unfold start_time_of, with_file_contents. now rewrite Hf. }
  split; [exact Hnone|]. split.
  - rewrite maybe_returns, Hnone. reflexivity.
  - rewrite of_pid_throws by (now rewrite Hnone).
    rewrite Hnone. cbn [nullopt probe_errno].
    destruct (Z.eqb_spec errno 0); [contradiction | reflexivity].
Qed.

End LinuxNames.

(** ** The boot time *)

Section BootTime.

Import ProcessId Linux.
Local Open Scope string_scope.

Variable strerror : Z -> string.

Lemma length_append (a b : string) :
  String.length (a ++ b) = (String.length a + String.length b)%nat.
Proof. induction a as [|x a IH]; cbn; [reflexivity | now rewrite IH]. Qed.

Lemma prefix_append (n : string) :
  forall a b : string,
    (String.length n <= String.length a)%nat ->
    prefix n (a ++ b) = prefix n a.
Proof.
  induction n as [|x n IH]; intros a b Hlen.
  - destruct a; destruct b; reflexivity.
  - destruct a as [|y a]; cbn in Hlen; [lia|].
    cbn. destruct (ascii_dec x y); [apply IH; lia | reflexivity].
Qed.

Lemma prefix_self (n t : string) : prefix n (n ++ t) = true.
Proof.
  induction n as [|x n IH]; cbn.
  - destruct t; reflexivity.
  - destruct (ascii_dec x x); [exact IH | congruence].
Qed.

Lemma strstr_hit (h n : string) :
  prefix n h = true -> strstr h n = Some h.
Proof. intros H. destruct h; cbn [strstr]; now rewrite H. Qed.

(** [strstr] finds the first occurrence: when [needle] does not occur in
    [pre] followed by all of [needle] but its last character, the search
    in [pre ++ needle ++ tail] stops right after [pre]. *)
Lemma strstr_first (needle x : string) (y : ascii) (tail : string) :
  needle = x ++ String y "" ->
  forall pre : string,
    strstr (pre ++ x) needle = None ->
    strstr (pre ++ needle ++ tail) needle = Some (needle ++ tail).
Proof.
  intros Hn. induction pre as [|c pre IH]; intros Hnone.
  - cbn [append]. apply strstr_hit, prefix_self.
  - cbn [append] in *. cbn [strstr] in Hnone.
    destruct (prefix needle (String c (pre ++ x))) eqn:Hp;
      [discriminate Hnone|].
    cbn [strstr].
    replace (String c (pre ++ needle ++ tail))
      with (String c (pre ++ x) ++ String y tail).
    + rewrite prefix_append, Hp.
      * replace (String c (pre ++ x) ++ String y tail)
          with (String c (pre ++ needle ++ tail)).
        -- now apply IH.
        -- cbn [append]. f_equal. rewrite Hn, !append_assoc. reflexivity.
      * rewrite Hn. cbn [String.length]. rewrite !length_append.
        cbn [String.length]. lia.
    + cbn [append]. f_equal. rewrite Hn, !append_assoc. reflexivity.
Qed.

(** X25. [get_boot_time] returns the number that follows the first
    [btime ] at the start of a line after the first of /proc/stat, when it
    fits an [int], whatever [errno] was on entry. *)
Theorem get_boot_time_found (errno : Z) (sys : system)
    (bytes pre ds rest : string) :
  file sys "/proc/stat" = inr bytes ->
  c_str bytes = pre ++ line_btime ++ ds ++ rest ->
  strstr (pre ++ String "010" "btime") line_btime = None ->
  is_digits ds = true -> head_is isdigit rest = false ->
  (decimal 0 ds < 2 ^ 31)%Z ->
  get_boot_time strerror errno sys = Ok (decimal 0 ds).
Proof.
  intros Hf Hline Hfirst Hds Hrest Hint.
  unfold get_boot_time.
  rewrite (with_file_contents_read sys _ _ bytes) by exact Hf.
  destruct bytes as [|c bytes].
  { cbn in Hline. destruct pre; discriminate Hline. }
  rewrite Hline.
  rewrite (strstr_first line_btime (String "010" "btime") " "%char)
    by (reflexivity || exact Hfirst).
  change (advance 7 (line_btime ++ ds ++ rest)) with (ds ++ rest).
  unfold atoi. rewrite scan_number_digits by assumption.
  unfold strtol. pose proof (decimal_nonneg ds 0 ltac:(lia)) as Hpos.
  rewrite to_signed_small
    by (change (2 ^ (32 - 1))%Z with 2147483648%Z;
        change (2 ^ 31)%Z with 2147483648%Z in Hint; lia).
  unfold time_t. rewrite to_signed_small; [reflexivity | | lia].
  change (2 ^ (64 - 1))%Z with 9223372036854775808%Z.
  change (2 ^ 31)%Z with 2147483648%Z in Hint. lia.
Qed.

(** X26. When [btime ] starts the first line of /proc/stat and no later
    line, [get_boot_time] returns 0 whatever number follows: [atoi] is
    applied to the start of the buffer, not to what follows the six
    characters compared. *)
Theorem get_boot_time_first_line (errno : Z) (sys : system)
    (bytes rest : string) :
  file sys "/proc/stat" = inr bytes ->
  c_str bytes = "btime " ++ rest ->
  strstr rest line_btime = None ->
  get_boot_time strerror errno sys = Ok 0%Z.
Proof.
  intros Hf Hline Hnone.
  unfold get_boot_time.
  rewrite (with_file_contents_read sys _ _ bytes) by exact Hf.
  destruct bytes as [|c bytes]; [discriminate Hline|].
  rewrite Hline.
  change (strstr ("btime " ++ rest) line_btime)
    with (strstr rest line_btime).
  rewrite Hnone, prefix_self. reflexivity.
Qed.

(** X27. When no line of a non-empty /proc/stat starts with [btime ],
    [get_boot_time] throws a [runtime_error] with the text of [ENOENT]. *)
Theorem get_boot_time_missing (errno : Z) (sys : system) (bytes : string) :
  file sys "/proc/stat" = inr bytes -> bytes <> "" ->
  strstr (c_str bytes) line_btime = None ->
  prefix "btime " (c_str bytes) = false ->
  get_boot_time strerror errno sys
  = Throw (runtime_error ("/proc/stat: " ++ strerror ENOENT)).
Proof.
  intros Hf Hne Hnone Hfirst.
  unfold get_boot_time.
  rewrite (with_file_contents_read sys _ _ bytes) by exact Hf.
  destruct bytes as [|c bytes]; [congruence|].
  now rewrite Hnone, Hfirst.
Qed.

End BootTime.

(** ** The lock over the Linux probe *)

Section LinuxLock.

Import ProcessId Linux.
Local Open Scope string_scope.

Variable Value : ValueT.
Variable strerror : Z -> string.
Variable NDEBUG : bool.

Lemma identifier_not_null (p : Z) (tv : timeval) :
  is_pid_t p -> p <> 0%Z -> of_pid_start_time Value p tv <> null.
Proof.
  intros Hp Hnz H. unfold of_pid_start_time, null in H. injection H as H.
  apply (to_unsigned_pid_nonzero Value p Hp Hnz).
  rewrite <- (high_half_packed Value p tv), H.
  unfold high_half. apply Z.shiftr_0_l.
Qed.

(** X28. On Linux, a lock whose recorded holder has become a zombie (or
    is dead but not yet gone from /proc) is taken by [try_lock_impl]:
    with nobody else at the lock it returns true and the cell holds the
    caller's identifier. *)
Theorem try_lock_takes_from_zombie (sys : system) (me : ProcessId.t)
    (p : Z) (tv : timeval) (bytes : string) (state : ascii) (t : Z) :
  is_pid_t p -> p <> 0%Z ->
  me <> of_pid_start_time Value p tv ->
  file sys (stat_path p) = inr bytes ->
  sscanf (c_str bytes) stat_format = [arg_char state; arg_int t] ->
  zombie_or_dead state = true ->
  ProcessIdLock.try_lock_impl Value strerror (start_time_of sys) NDEBUG me
    (Atomic.quiet (of_pid_start_time Value p tv))
  = (Ok true, Atomic.quiet me).
Proof.
  intros Hp Hnz Hme Hf Hscan Hz.
  apply try_lock_impl_dead_quiet.
  - now apply identifier_not_null.
  - congruence.
  - left. rewrite (pid_of_pid_start_time Value p tv Hp), maybe_returns.
    now rewrite (start_time_of_zombie_or_dead sys p bytes state t).
Qed.


End LinuxLock.

(** ** Instances of the further properties *)

Section FurtherInstances.

Import ProcessId.
Local Open Scope string_scope.

(** [INT_MAX] plus one wraps around, and [fetch_sub] brings it back. *)
Lemma fetch_add_then_fetch_sub_witness :
  (0 < Atomic.int_bits Sample.int)%Z
  /\ Atomic.int_range Sample.int 2147483647
  /\ Atomic.bind
       (Atomic.fetch_add Sample.int 1 memory_order_relaxed) (fun old =>
     Atomic.bind
       (Atomic.fetch_sub Sample.int 1 memory_order_seq_cst) (fun mid =>
     Atomic.ret (old, mid))) (Atomic.quiet 2147483647%Z)
     = (Ok (2147483647, -2147483648)%Z, Atomic.quiet 2147483647%Z).
Proof.
  assert (H1 : (0 < Atomic.int_bits Sample.int)%Z) by reflexivity.
  assert (H2 : Atomic.int_range Sample.int 2147483647)
    by (split; [discriminate | reflexivity]).
  refine (conj H1 (conj H2 _)).
  exact (fetch_add_then_fetch_sub Sample.int H1 2147483647 1
           memory_order_relaxed memory_order_seq_cst H2).
Defined.

(** [++x] and [x++] on an [unsigned char] holding 255. *)
Lemma shortcut_results_witness :
  Atomic.sum_defined Sample.unsigned_char (255 + 1)
  /\ Atomic.sum_defined Sample.unsigned_char (255 - 1)
  /\ Atomic.pre_increment Sample.unsigned_char (Atomic.quiet 255%Z)
     = (Ok 0%Z, Atomic.quiet 0%Z)
  /\ Atomic.post_increment Sample.unsigned_char (Atomic.quiet 255%Z)
     = (Ok 255%Z, Atomic.quiet 0%Z).
Proof.
  assert (H1 : Atomic.sum_defined Sample.unsigned_char (255 + 1))
    by (left; reflexivity).
  assert (H2 : Atomic.sum_defined Sample.unsigned_char (255 - 1))
    by (left; reflexivity).
  refine (conj H1 (conj H2 _)).
  destruct (shortcut_results Sample.unsigned_char false 255 1 H1 H2 H1 H2)
    as (_ & _ & Epre & Epost & _).
  split.
  - apply (f_equal (fun r => (match fst r with
                              | Ok (x, _) => Ok x
                              | Throw e => Throw e
                              | AssertFail => AssertFail
                              end, snd r))) in Epre.
    exact Epre.
  - apply (f_equal (fun r => (match fst r with
                              | Ok (x, _) => Ok x
                              | Throw e => Throw e
                              | AssertFail => AssertFail
                              end, snd r))) in Epost.
    exact Epost.
Defined.

Lemma bitwise_results_witness :
  (0 < Atomic.int_bits Sample.unsigned_char)%Z
  /\ Atomic.int_range Sample.unsigned_char 240
  /\ Atomic.int_range Sample.unsigned_char 60
  /\ Atomic.and_assign Sample.unsigned_char 60 (Atomic.quiet 240%Z)
     = (Ok 48%Z, Atomic.quiet 48%Z)
  /\ Atomic.or_assign Sample.unsigned_char 60 (Atomic.quiet 240%Z)
     = (Ok 252%Z, Atomic.quiet 252%Z)
  /\ Atomic.xor_assign Sample.unsigned_char 60 (Atomic.quiet 240%Z)
     = (Ok 204%Z, Atomic.quiet 204%Z).
Proof.
  assert (H1 : (0 < Atomic.int_bits Sample.unsigned_char)%Z) by reflexivity.
  assert (H2 : Atomic.int_range Sample.unsigned_char 240)
    by (split; [discriminate | reflexivity]).
  assert (H3 : Atomic.int_range Sample.unsigned_char 60)
    by (split; [discriminate | reflexivity]).
  destruct (bitwise_results Sample.unsigned_char H1 240 60 H2 H3)
    as (Eand & Eor & Exor & _).
  exact (conj H1 (conj H2 (conj H3 (conj Eand (conj Eor Exor))))).
Defined.

(** An [Atomic<int *>] holding the address 4: [x += -2] returns
    2^64 - 4 and leaves 2. *)
Lemma pointer_add_assign_witness :
  (0 <= 4 < 2 ^ 64)%Z
  /\ Atomic.add_assign_ptr 4 (-2) (Atomic.quiet 4%Z)
     = (Ok 18446744073709551612%Z, Atomic.quiet 2%Z).
Proof.
  assert (H1 : (0 <= 4 < 2 ^ 64)%Z)
    by (split; [discriminate | reflexivity]).
  refine (conj H1 _).
  exact (proj1 (pointer_add_assign 4 4 (-2) H1)).
Defined.

Lemma start_time_exact_128_witness :
  normalized Sample.shell_tv /\ (micros Sample.shell_tv < 2 ^ 64)%Z
  /\ start_time uint128_t Sample.shell = Sample.shell_tv.
Proof.
  assert (H1 : normalized Sample.shell_tv)
    by (repeat split; (discriminate || reflexivity)).
  assert (H2 : (micros Sample.shell_tv < 2 ^ 64)%Z) by reflexivity.
  refine (conj H1 (conj H2 _)).
  exact (start_time_exact_128 4242 Sample.shell_tv H1 H2).
Defined.

(** Two processes of pid 4242 started within the same second. *)
Lemma equal_iff_64_witness :
  is_pid_t 4242
  /\ of_pid_start_time uint64_t 4242 {| tv_sec := 1762001234; tv_usec := 1 |}
     = of_pid_start_time uint64_t 4242 Sample.shell_tv.
Proof.
  assert (H1 : is_pid_t 4242) by (unfold is_pid_t; lia).
  refine (conj H1 _).
  apply (equal_iff_64 4242 4242
           {| tv_sec := 1762001234; tv_usec := 1 |} Sample.shell_tv H1 H1).
  split; reflexivity.
Defined.

Lemma equal_iff_128_witness :
  is_pid_t 4242
  /\ normalized {| tv_sec := 1762001234; tv_usec := 1 |}
  /\ (micros {| tv_sec := 1762001234; tv_usec := 1 |} < 2 ^ 64)%Z
  /\ normalized Sample.shell_tv /\ (micros Sample.shell_tv < 2 ^ 64)%Z
  /\ of_pid_start_time uint128_t 4242 {| tv_sec := 1762001234; tv_usec := 1 |}
     <> of_pid_start_time uint128_t 4242 Sample.shell_tv.
Proof.
  assert (H1 : is_pid_t 4242) by (unfold is_pid_t; lia).
  assert (H2 : normalized {| tv_sec := 1762001234; tv_usec := 1 |})
    by (repeat split; (discriminate || reflexivity)).
  assert (H3 : (micros {| tv_sec := 1762001234; tv_usec := 1 |} < 2 ^ 64)%Z)
    by reflexivity.
  assert (H4 : normalized Sample.shell_tv)
    by (repeat split; (discriminate || reflexivity)).
  assert (H5 : (micros Sample.shell_tv < 2 ^ 64)%Z) by reflexivity.
  refine (conj H1 (conj H2 (conj H3 (conj H4 (conj H5 _))))).
  intros E.
  apply (equal_iff_128 4242 4242 _ _ H1 H1 H2 H3 H4 H5) in E.
  destruct E as [_ E]. discriminate E.
Defined.

Lemma compare_by_pid_then_start_witness :
  is_pid_t 5 /\ is_pid_t 7 /\ (0 <= 5)%Z /\ (0 <= 7)%Z
  /\ compare Sample.me Sample.holder = Lt.
Proof.
  assert (H1 : is_pid_t 5) by (unfold is_pid_t; lia).
  assert (H2 : is_pid_t 7) by (unfold is_pid_t; lia).
  assert (H3 : (0 <= 5)%Z) by discriminate.
  assert (H4 : (0 <= 7)%Z) by discriminate.
  refine (conj H1 (conj H2 (conj H3 (conj H4 _)))).
  exact (compare_by_pid_then_start uint64_t 5 7 Sample.tv Sample.tv
           H1 H2 H3 H4).
Defined.

Abbreviation current5 :=
  (current uint64_t Sample.strerror Sample.start_time_of 5).
Abbreviation lock5 :=
  (ProcessIdLock.lock uint64_t Sample.strerror Sample.start_time_of 5 false).
Abbreviation lock5' :=
  (ProcessIdLock.lock uint64_t Sample.strerror Sample.both_run 5 false).

Lemma lock_acquires_at_once_witness :
  current5 = Ok Sample.me
  /\ Sample.holder <> Sample.me
  /\ probe_time (Sample.start_time_of (pid uint64_t Sample.holder)) = None
  /\ lock5 1%nat (Atomic.quiet Sample.holder)
     = (Ok (Some tt), Atomic.quiet Sample.me).
Proof.
  assert (H1 : current5 = Ok Sample.me) by reflexivity.
  assert (H2 : Sample.holder <> Sample.me)
    by (intros H; vm_compute in H; discriminate H).
  assert (H3 : probe_time (Sample.start_time_of (pid uint64_t Sample.holder))
               = None) by reflexivity.
  refine (conj H1 (conj H2 (conj H3 _))).
  exact (lock_acquires_at_once uint64_t Sample.strerror Sample.start_time_of
           5 false Sample.me Sample.holder 0 H1 (or_intror (conj H2 H3))).
Defined.

(** The holder calls [lock()] again. *)
Lemma lock_spins_witness :
  current5 = Ok Sample.me
  /\ Sample.me <> null
  /\ lock5 1000%nat (Atomic.quiet Sample.me)
     = (Ok None, Atomic.quiet Sample.me).
Proof.
  assert (H1 : current5 = Ok Sample.me) by reflexivity.
  assert (H2 : Sample.me <> null)
    by (intros H; vm_compute in H; discriminate H).
  refine (conj H1 (conj H2 _)).
  exact (lock_spins uint64_t Sample.strerror Sample.start_time_of
           5 false Sample.me Sample.me 1000 H1 H2 (or_introl eq_refl)).
Defined.

(** Process 7 holds the lock for two attempts of process 5, then
    releases it. *)
Lemma lock_after_release_witness :
  current uint64_t Sample.strerror Sample.both_run 5 = Ok Sample.me
  /\ Sample.holder <> null
  /\ Sample.holder <> Sample.me
  /\ maybe uint64_t Sample.strerror Sample.both_run
       (pid uint64_t Sample.holder) = Ok (Some Sample.holder)
  /\ lock5' 3%nat (Atomic.mk Sample.holder [None; None; Some null])
     = (Ok (Some tt), Atomic.mk Sample.me []).
Proof.
  assert (H1 : current uint64_t Sample.strerror Sample.both_run 5
               = Ok Sample.me) by reflexivity.
  assert (H2 : Sample.holder <> null)
    by (intros H; vm_compute in H; discriminate H).
  assert (H3 : Sample.holder <> Sample.me)
    by (intros H; vm_compute in H; discriminate H).
  assert (H4 : maybe uint64_t Sample.strerror Sample.both_run
                 (pid uint64_t Sample.holder) = Ok (Some Sample.holder))
    by reflexivity.
  refine (conj H1 (conj H2 (conj H3 (conj H4 _)))).
  exact (lock_after_release uint64_t Sample.strerror Sample.both_run
           5 false Sample.me Sample.holder 2 0 [] H1 H2 H3 H4).
Defined.

(** Process 5, which called [current()], forks process 7. *)
Lemma current_after_fork_witness :
  Current.reachable Sample.called
  /\ is_pid_t 7
  /\ of_pid uint64_t Sample.strerror Sample.both_run 7 = Ok Sample.holder
  /\ exists c : Current.process,
       Current.fork uint64_t Sample.strerror Sample.both_run 7 Sample.called
       = Ok c
       /\ fst (Current.current uint64_t Sample.strerror Sample.both_run c)
          = Ok Sample.holder
       /\ pid uint64_t Sample.holder = 7%Z.
Proof.
  assert (H1 : Current.reachable Sample.called) by (intros _; cbn; lia).
  assert (H2 : is_pid_t 7) by (unfold is_pid_t; lia).
  assert (H3 : of_pid uint64_t Sample.strerror Sample.both_run 7
               = Ok Sample.holder) by reflexivity.
  refine (conj H1 (conj H2 (conj H3 _))).
  exact (current_after_fork uint64_t Sample.strerror Sample.both_run
           Sample.called 7 Sample.holder H1 H2 H3).
Defined.

(** The first call in process 5, and a later call when the system would
    no longer answer. *)
Lemma current_is_cached_witness :
  Current.reachable (Current.fresh 5)
  /\ Current.current uint64_t Sample.strerror Sample.start_time_of
       (Current.fresh 5) = (Ok Sample.me, Sample.called)
  /\ Current.current uint64_t Sample.strerror
       (fun _ => {| probe_time := None; probe_errno := 3 |}) Sample.called
     = (Ok Sample.me, Sample.called).
Proof.
  assert (H1 : Current.reachable (Current.fresh 5))
    by (intros H; discriminate H).
  assert (H2 : Current.current uint64_t Sample.strerror Sample.start_time_of
                 (Current.fresh 5) = (Ok Sample.me, Sample.called))
    by reflexivity.
  refine (conj H1 (conj H2 _)).
  exact (proj1 (current_is_cached uint64_t Sample.strerror
                  Sample.start_time_of (Current.fresh 5) Sample.called
                  Sample.me
                  (fun _ => {| probe_time := None; probe_errno := 3 |})
                  H1 H2)).
Defined.


Lemma start_time_of_monotone_witness :
  Linux.file Sample.linux2 (Linux.stat_path 4242) = inr Sample.shell_stat
  /\ Linux.file Sample.linux2 (Linux.stat_path 4245)
     = inr Sample.editor_stat
  /\ Linux.sscanf (Linux.c_str Sample.shell_stat) Linux.stat_format
     = [Linux.arg_char "S"; Linux.arg_int 123456]
  /\ Linux.sscanf (Linux.c_str Sample.editor_stat) Linux.stat_format
     = [Linux.arg_char "S"; Linux.arg_int 123460]
  /\ exists tv1 tv2 : timeval,
       probe_time (Linux.start_time_of Sample.linux2 4242) = Some tv1
       /\ probe_time (Linux.start_time_of Sample.linux2 4245) = Some tv2
       /\ (micros tv1 <= micros tv2)%Z.
Proof.
  assert (H1 : Linux.file Sample.linux2 (Linux.stat_path 4242)
               = inr Sample.shell_stat) by reflexivity.
  assert (H2 : Linux.file Sample.linux2 (Linux.stat_path 4245)
               = inr Sample.editor_stat) by reflexivity.
  assert (H3 : Linux.sscanf (Linux.c_str Sample.shell_stat)
                 Linux.stat_format
               = [Linux.arg_char "S"; Linux.arg_int 123456])
    by reflexivity.
  assert (H4 : Linux.sscanf (Linux.c_str Sample.editor_stat)
                 Linux.stat_format
               = [Linux.arg_char "S"; Linux.arg_int 123460])
    by reflexivity.
  refine (conj H1 (conj H2 (conj H3 (conj H4 _)))).
  apply (start_time_of_monotone Sample.linux2 4242 4245
           Sample.shell_stat Sample.editor_stat "S" "S" 123456 123460
           H1 H2 H3 H4);
    first [reflexivity | discriminate
          | split; (discriminate || reflexivity)].
Defined.

(** The running process named [job(1)] is not found. *)
Lemma name_closing_paren_not_found_witness :
  Linux.file Sample.linux2 (Linux.stat_path 4244) = inr Sample.paren_stat
  /\ Linux.zombie_or_dead "R" = false
  /\ Linux.start_time_of Sample.linux2 4244 = Linux.nullopt 0
  /\ maybe uint128_t Sample.strerror (Linux.start_time_of Sample.linux2) 4244
     = Ok None.
Proof.
  assert (H1 : Linux.file Sample.linux2 (Linux.stat_path 4244)
               = inr Sample.paren_stat) by reflexivity.
  assert (H2 : Linux.zombie_or_dead "R" = false) by reflexivity.
  refine (conj H1 (conj H2 _)).
  apply (name_closing_paren_not_found uint128_t Sample.strerror
           Sample.linux2 4244 Sample.paren_stat "4244" "job(1" "R"
           ["4000"; "4244"; "4242"; "34816"; "4300"; "4194304";
            "1000"; "2000"; "0"; "0"; "10"; "5"; "3"; "2"; "20";
            "0"; "1"; "0"]
           "123460" " 12000000 500 18446744073709551615 0 0" H1);
    try reflexivity; discriminate.
Defined.

(** No process 1 in [Sample.linux2]: [ENOENT]. *)
Lemma open_failure_lookup_witness :
  Linux.file Sample.linux2 (Linux.stat_path 1) = inl 2%Z
  /\ 2%Z <> 0%Z
  /\ of_pid uint128_t Sample.strerror (Linux.start_time_of Sample.linux2) 1
     = Throw (runtime_error
                "can't get process start time: pid=1: Unknown error").
Proof.
  assert (H1 : Linux.file Sample.linux2 (Linux.stat_path 1) = inl 2%Z)
    by reflexivity.
  assert (H2 : 2%Z <> 0%Z) by discriminate.
  refine (conj H1 (conj H2 _)).
  exact (proj2 (proj2 (open_failure_lookup uint128_t Sample.strerror
                         Sample.linux2 1 2 H1 H2))).
Defined.

Lemma get_boot_time_found_witness :
  Linux.file Sample.linux2 "/proc/stat" = inr Sample.proc_stat
  /\ Linux.get_boot_time Sample.strerror 0 Sample.linux2
     = Ok 1762000000%Z.
Proof.
  assert (H1 : Linux.file Sample.linux2 "/proc/stat" = inr Sample.proc_stat)
    by reflexivity.
  refine (conj H1 _).
  apply (get_boot_time_found Sample.strerror 0 Sample.linux2
           Sample.proc_stat
           ("cpu  4705 150 1120 1644062 7 0 23 0 0 0" ++ String "010"
              "ctxt 1990473")
           "1762000000"
           (String "010" ("processes 2915" ++ String "010" "")) H1);
    reflexivity.
Defined.

Lemma get_boot_time_first_line_witness :
  Linux.file (Sample.with_proc_stat Sample.btime_first) "/proc/stat"
  = inr Sample.btime_first
  /\ Linux.get_boot_time Sample.strerror 0
       (Sample.with_proc_stat Sample.btime_first) = Ok 0%Z.
Proof.
  assert (H1 : Linux.file (Sample.with_proc_stat Sample.btime_first)
                 "/proc/stat" = inr Sample.btime_first) by reflexivity.
  refine (conj H1 _).
  apply (get_boot_time_first_line Sample.strerror 0
           (Sample.with_proc_stat Sample.btime_first) Sample.btime_first
           ("1762000000" ++ String "010" ("processes 2915" ++ String "010" ""))
           H1);
    reflexivity.
Defined.

Lemma get_boot_time_missing_witness :
  Linux.file (Sample.with_proc_stat Sample.btime_missing) "/proc/stat"
  = inr Sample.btime_missing
  /\ Linux.get_boot_time Sample.strerror 0
       (Sample.with_proc_stat Sample.btime_missing)
     = Throw (runtime_error "/proc/stat: Unknown error").
Proof.
  assert (H1 : Linux.file (Sample.with_proc_stat Sample.btime_missing)
                 "/proc/stat" = inr Sample.btime_missing) by reflexivity.
  refine (conj H1 _).
  apply (get_boot_time_missing Sample.strerror 0
           (Sample.with_proc_stat Sample.btime_missing)
           Sample.btime_missing H1);
    try reflexivity; discriminate.
Defined.

(** The shell takes the lock left by the zombie 4243. *)
Lemma try_lock_takes_from_zombie_witness :
  is_pid_t 4243 /\ 4243%Z <> 0%Z
  /\ Sample.shell <> Sample.zombie
  /\ Linux.file Sample.linux2 (Linux.stat_path 4243) = inr Sample.zombie_stat
  /\ Linux.zombie_or_dead "Z" = true
  /\ ProcessIdLock.try_lock_impl uint128_t Sample.strerror
       (Linux.start_time_of Sample.linux2) false Sample.shell
       (Atomic.quiet Sample.zombie)
     = (Ok true, Atomic.quiet Sample.shell).
Proof.
  assert (H1 : is_pid_t 4243) by (unfold is_pid_t; lia).
  assert (H2 : 4243%Z <> 0%Z) by discriminate.
  assert (H3 : Sample.shell <> Sample.zombie)
    by (intros H; vm_compute in H; discriminate H).
  assert (H4 : Linux.file Sample.linux2 (Linux.stat_path 4243)
               = inr Sample.zombie_stat) by reflexivity.
  assert (H5 : Linux.zombie_or_dead "Z" = true) by reflexivity.
  refine (conj H1 (conj H2 (conj H3 (conj H4 (conj H5 _))))).
  exact (try_lock_takes_from_zombie uint128_t Sample.strerror false
           Sample.linux2 Sample.shell 4243 Sample.tv Sample.zombie_stat
           "Z" 123999 H1 H2 H3 H4 eq_refl H5).
Defined.


End FurtherInstances.
